(** * Ownership annotations of Helm release resources

    A shallow embedding of [pkg/release/annotate.go]: the decomposition of a
    release manifest into unstructured objects, the verification of the
    antecedent annotation ([annotatedWithResourceID]) and its propagation
    ([annotateWithResourceID]).

    The Kubernetes client, the discovery REST mapper, the YAML parser and
    Helm's manifest splitter are libraries the file calls; they appear here
    as interfaces (type classes) whose operations act on an explicit cluster
    state.  Every request sent through the client is recorded in a trace. *)

From Stdlib Require Import ZArith NArith Ascii String List Lia Permutation.
From stdpp Require Import base option list gmap strings pretty.

Local Open Scope string_scope.
Set Warnings "-register-all".

(** ** Schema identifiers ([k8s.io/apimachinery/pkg/runtime/schema]) *)

Record GroupKind := mkGroupKind { gk_Group : string; gk_Kind : string }.

Record GroupVersionKind := mkGVK
  { gvk_Group : string; gvk_Version : string; gvk_Kind : string }.

Record GroupVersionResource := mkGVR
  { gvr_Group : string; gvr_Version : string; gvr_Resource : string }.

Definition GVK_GroupKind (gvk : GroupVersionKind) : GroupKind :=
  mkGroupKind (gvk_Group gvk) (gvk_Kind gvk).

(** [meta.RESTMapping]: only the [Resource] field is read by the code. *)
Record RESTMapping := mkRESTMapping
  { Resource : GroupVersionResource; mapping_GVK : GroupVersionKind }.

(** ** Unstructured objects

    The fields of [unstructured.Unstructured] that the code reads or writes.
    [u_items] is the [items] entry of the object: [None] when the object has
    no [items] array, [Some l] when it has one; a member of the array that is
    not itself an object is [None]. *)

Inductive Unstructured := mkUnstructured
  { u_apiVersion : string;
    u_kind : string;
    u_namespace : string;
    u_name : string;
    u_annotations : gmap string string;
    u_items : option (list (option Unstructured)) }.

Fixpoint splitSlash (s : string) : string * option string :=
  match s with
  | EmptyString => ("", None)
  | String c r =>
      if Ascii.eqb c "/" then ("", Some r)
      else let (a, b) := splitSlash r in (String c a, b)
  end.

(** [schema.ParseGroupVersion] followed by [WithKind]; the empty
    [GroupVersionKind] when the version string has more than one slash. *)
Definition parseGVK (apiVersion kind : string) : GroupVersionKind :=
  match splitSlash apiVersion with
  | (v, None) => mkGVK "" v kind
  | (g, Some v) =>
      match splitSlash v with
      | (_, None) => mkGVK g v kind
      | (_, Some _) => mkGVK "" "" ""
      end
  end.

Definition GetGroupVersionKind (u : Unstructured) : GroupVersionKind :=
  parseGVK (u_apiVersion u) (u_kind u).
Definition GetNamespace (u : Unstructured) : string := u_namespace u.
Definition GetName (u : Unstructured) : string := u_name u.
Definition GetKind (u : Unstructured) : string := u_kind u.
Definition GetAnnotations (u : Unstructured) : gmap string string := u_annotations u.

Definition SetNamespace (ns : string) (u : Unstructured) : Unstructured :=
  mkUnstructured (u_apiVersion u) (u_kind u) ns (u_name u) (u_annotations u)
                 (u_items u).

Definition IsList (u : Unstructured) : bool :=
  match u_items u with Some _ => true | None => false end.

(** [ToList] fails when a member of [items] is not an object; of an object
    that is no list it makes the empty list. *)
Fixpoint allObjects (l : list (option Unstructured)) : option (list Unstructured) :=
  match l with
  | [] => Some []
  | Some u :: l' =>
      match allObjects l' with Some us => Some (u :: us) | None => None end
  | None :: _ => None
  end.

Definition ToList (u : Unstructured) : option (list Unstructured) :=
  match u_items u with
  | Some l => allObjects l
  | None => Some []
  end.

(** The size of an object, counting the objects among its items: an object
    is larger than each of its items. *)
Fixpoint usize (u : Unstructured) : nat :=
  match u with
  | mkUnstructured _ _ _ _ _ items =>
      S (match items with
         | Some l =>
             list_sum (map (fun o => match o with Some x => usize x | None => 0 end) l)
         | None => 0
         end)
  end.

(** ** Identifiers, errors, releases *)

(** [resource.ID] is used through its [String] method only. *)
Record ResourceID := mkResourceID { ID_String : string }.

(** [helm.Release]: the two fields the code reads. *)
Record Release := mkRelease { Manifest : string; Namespace : string }.

(** The double quote character, as a string. *)
Definition dq : string := String "034" EmptyString.

Definition AntecedentAnnotation : string := "helm.fluxcd.io/antecedent".

(** A Go [error] value is either nil or an error. *)
Abbreviation error Err := (option Err) (only parsing).

(** The classification functions of [k8s.io/apimachinery]: predicates on
    non-nil errors.  On a nil error each of them answers no, which is how
    they are lifted to [error] by [onError]. *)
Class ErrorClassifiers (Err : Type) := {
  IsConnectionReset : Err -> bool;
  IsInternalError : Err -> bool;
  IsTimeout : Err -> bool;
  IsTooManyRequests : Err -> bool;
  SuggestsClientDelay : Err -> Z * bool
}.

Definition onError {Err} (p : Err -> bool) (err : error Err) : bool :=
  match err with Some e => p e | None => false end.

(** ** The cluster *)

Inductive PatchType := JSONPatchType | MergePatchType | StrategicMergePatchType.

(** The calls the code makes to the client libraries that talk to the API
    server: [restmapper.GetAPIGroupResources], and [Get] and [Patch] of the
    dynamic client.  What a call sends over the wire (one HTTP request or
    several, repeated or not) is the library's matter and is not modelled. *)
Inductive Request :=
| ReqDiscovery
| ReqGet (gvr : GroupVersionResource) (ns name : string)
| ReqPatch (gvr : GroupVersionResource) (ns name : string)
           (pt : PatchType) (body : string).

Definition isRead (r : Request) : bool :=
  match r with ReqPatch _ _ _ _ _ => false | _ => true end.

(** The API server and the client libraries in front of it.  [World] is the
    state of the cluster together with whatever decides how the next request
    fares (network faults, load); every operation may change it. *)
Class Kube (Config Err World : Type) := {
  Client : Type;
  DiscoveryClient : Type;
  GroupResources : Type;
  RESTMapper : Type;
  dynamic_NewForConfig : Config -> Client + Err;
  NewDiscoveryClientForConfig : Config -> DiscoveryClient + Err;
  GetAPIGroupResources : DiscoveryClient -> World -> (GroupResources + Err) * World;
  NewDiscoveryRESTMapper : GroupResources -> RESTMapper;
  RESTMapper_RESTMapping : RESTMapper -> GroupKind -> string -> RESTMapping + Err;
  client_Get : Client -> GroupVersionResource -> string -> string ->
               World -> (Unstructured + Err) * World;
  client_Patch : Client -> GroupVersionResource -> string -> string ->
                 PatchType -> string -> World -> (Unstructured + Err) * World
}.

(** Manifest text handling.  [splitDocuments] is the text work of Helm's
    [releaseutil.SplitManifests]: the non-empty documents of the text, trimmed,
    in the order of the text.  [yaml_Unmarshal] is [yaml.Unmarshal] into an
    unstructured object, [None] when it returns an error. *)
Class ManifestParser := {
  splitDocuments : string -> list string;
  yaml_Unmarshal : string -> option Unstructured
}.

(** [releaseutil.SplitManifests] has type [func(string) map[string]string]:
    the document at position [i] of the text is stored under the key
    [manifest-i]. *)
Definition manifestKey (i : nat) : string := "manifest-" ++ pretty i.

Definition SplitManifests `{ManifestParser} (bigFile : string) : gmap string string :=
  list_to_map (imap (fun i d => (manifestKey i, d)) (splitDocuments bigFile)).

(** What the logger is given. *)
Inductive LogRecord (Err : Type) :=
| LogToListError
| LogRESTMappingFailed (gvk : GroupVersionKind) (err : Err)
| LogPatchFailed (kind name : string) (err : Err).
Arguments LogToListError {Err}.
Arguments LogRESTMappingFailed {Err} gvk err.
Arguments LogPatchFailed {Err} kind name err.

(** [log.Logger]: the no-op logger, or one that appends to the sink. *)
Inductive Logger := NopLogger | SinkLogger.

(** ** State of a call

    The cluster, the calls made to the client libraries so far (each with the
    error it returned, if any), and what the logger wrote. *)

Abbreviation Exchange Err := (Request * option Err)%type (only parsing).

Record State (Err World : Type) := mkState
  { cluster : World;
    history : list (Exchange Err);
    logged : list (LogRecord Err) }.
Arguments mkState {Err World} cluster history logged.
Arguments cluster {Err World} s.
Arguments history {Err World} s.
Arguments logged {Err World} s.

Definition failure {A Err} (r : A + Err) : option Err :=
  match r with inl _ => None | inr e => Some e end.

Definition M (S A : Type) : Type := S -> A * S.

Definition ret {S A} (a : A) : M S A := fun s => (a, s).
Definition bind {S A B} (m : M S A) (k : A -> M S B) : M S B :=
  fun s => let (a, s') := m s in k a s'.

Declare Scope go_scope.
Delimit Scope go_scope with go.
Notation "'let*' x := m 'in' k" := (bind m (fun x => k))
  (at level 10, x pattern, m at level 100, k at level 200) : go_scope.
Notation "m ;;; k" := (bind m (fun _ => k))
  (at level 100, k at level 200, right associativity) : go_scope.
Local Open Scope go_scope.

(** ** Retry ([k8s.io/apimachinery/pkg/util/wait], [k8s.io/client-go/util/retry])

    [wait.Backoff]: [Steps] bounds the number of attempts.  [Duration] (in
    nanoseconds) and [Factor] give the nominal pauses between attempts; the
    pauses themselves (sleeping, with a random jitter) are not modelled. *)

Record Backoff := mkBackoff { Steps : nat; Duration : Z; Factor : Z }.

Definition DefaultBackoff : Backoff :=
  {| Steps := 4; Duration := 10 * 1000 * 1000; Factor := 5 |}.

(** What [wait.ExponentialBackoff] returns: nil, the condition's error, or
    [ErrWaitTimeout]. *)
Inductive WaitResult (Err : Type) :=
| WaitDone
| WaitConditionError (e : Err)
| ErrWaitTimeout.
Arguments WaitDone {Err}.
Arguments WaitConditionError {Err} e.
Arguments ErrWaitTimeout {Err}.

Fixpoint ExponentialBackoff_steps {S Err} (steps : nat)
    (condition : M S (bool * error Err)) : M S (WaitResult Err) :=
  match steps with
  | 0 => ret ErrWaitTimeout
  | S n =>
      let* r := condition in
      match r with
      | (_, Some e) => ret (WaitConditionError e)
      | (true, None) => ret WaitDone
      | (false, None) => ExponentialBackoff_steps n condition
      end
  end.

Definition ExponentialBackoff {S Err} (backoff : Backoff)
    (condition : M S (bool * error Err)) : M S (WaitResult Err) :=
  ExponentialBackoff_steps (Steps backoff) condition.

(** Go's [range] over a map visits every entry once, in an order the language
    leaves unspecified, and [releaseManifestToUnstructured] ranges over the
    map as it is, without sorting its keys.  A [MapRange] is the order taken
    by one execution. *)
Definition MapRange : Type := gmap string string -> list (string * string).

(** What [annotatedWithResourceID] returns; [None] stands for the panic of a
    nil pointer dereference at [res.GetAnnotations()]. *)
Abbreviation VerifyResult Err :=
  (option (bool * string * option Err)) (only parsing).

Section Code.
Context {Config Err World : Type}.
Context `{EC : ErrorClassifiers Err} `{K : Kube Config Err World}
        `{MP : ManifestParser}.

Abbreviation St := (State Err World).

Definition Log (logger : Logger) (r : LogRecord Err) : M St unit :=
  fun s =>
    match logger with
    | NopLogger => (tt, s)
    | SinkLogger => (tt, mkState (cluster s) (history s) (logged s ++ [r]))
    end.

Definition sendDiscovery (dc : DiscoveryClient) : M St (GroupResources + Err) :=
  fun s =>
    let (r, w) := GetAPIGroupResources dc (cluster s) in
    (r, mkState w (history s ++ [(ReqDiscovery, failure r)]) (logged s)).

Definition sendGet (client : Client) (gvr : GroupVersionResource)
    (ns name : string) : M St (Unstructured + Err) :=
  fun s =>
    let (r, w) := client_Get client gvr ns name (cluster s) in
    (r, mkState w (history s ++ [(ReqGet gvr ns name, failure r)]) (logged s)).

Definition sendPatch (client : Client) (gvr : GroupVersionResource)
    (ns name : string) (pt : PatchType) (body : string)
    : M St (Unstructured + Err) :=
  fun s =>
    let (r, w) := client_Patch client gvr ns name pt body (cluster s) in
    (r, mkState w (history s ++ [(ReqPatch gvr ns name pt body, failure r)])
                (logged s)).

(** *** releaseManifestToUnstructured *)

Fixpoint decomposeLoop (logger : Logger) (manifests : list string)
    (objs : list Unstructured) : M St (list Unstructured) :=
  match manifests with
  | [] => ret objs
  | manifest :: rest =>
      match yaml_Unmarshal manifest with
      | None => decomposeLoop logger rest objs
      | Some u =>
          if IsList u then
            match ToList u with
            | None => Log logger LogToListError ;;; decomposeLoop logger rest objs
            | Some items => decomposeLoop logger rest (objs ++ items)
            end
          else decomposeLoop logger rest (objs ++ [u])
      end
  end.

Definition releaseManifestToUnstructured (rng : MapRange) (manifest : string)
    (logger : Logger) : M St (list Unstructured) :=
  let manifests := SplitManifests manifest in
  decomposeLoop logger (snd <$> rng manifests) [].

(** *** buildDiscoveryRestMapper *)

Definition buildDiscoveryRestMapper (kubeConfig : Config)
    : M St (RESTMapper + Err) :=
  match NewDiscoveryClientForConfig kubeConfig with
  | inr err => ret (inr err)
  | inl discoveryClient =>
      let* r := sendDiscovery discoveryClient in
      match r with
      | inr err => ret (inr err)
      | inl groupResources => ret (inl (NewDiscoveryRESTMapper groupResources))
      end
  end.

(** *** annotatedWithResourceID *)

(** The variables [res] and [err] that the retried closure assigns. *)
Abbreviation Captured := (option Unstructured * option Err)%type (only parsing).

Definition isTransient (err : error Err) : bool :=
  onError IsConnectionReset err || onError IsInternalError err
  || onError IsTimeout err || onError IsTooManyRequests err
  || onError (fun e => snd (SuggestsClientDelay e)) err.

(** The closure given to [wait.ExponentialBackoff] (lines 69-85). *)
Definition fetchCondition (client : Client) (mapping : RESTMapping)
    (obj : Unstructured) : M (Captured * St) (bool * error Err) :=
  fun '(_, s) =>
    let (r, s') :=
      sendGet client (Resource mapping) (GetNamespace obj) (GetName obj) s in
    let res := match r with inl u => Some u | inr _ => None end in
    let err := match r with inl _ => None | inr e => Some e end in
    if onError IsConnectionReset err || onError IsInternalError err
       || onError IsTimeout err || onError IsTooManyRequests err
    then ((false, None), ((res, err), s'))
    else if onError (fun e => snd (SuggestsClientDelay e)) err
    then ((false, None), ((res, err), s'))
    else match err with
         | Some e => ((false, Some e), ((res, err), s'))
         | None => ((true, None), ((res, err), s'))
         end.

(** Lines 66-85: [res] and [err] start as nil; the result of
    [wait.ExponentialBackoff] is dropped and the two variables are read. *)
Definition fetchWithRetry (client : Client) (mapping : RESTMapping)
    (obj : Unstructured) : M St Captured :=
  fun s =>
    let '(_, (captured, s')) :=
      ExponentialBackoff DefaultBackoff (fetchCondition client mapping obj)
                         ((None, None), s) in
    (captured, s').

Definition defaultNamespace (rel : Release) (obj : Unstructured) : Unstructured :=
  if String.eqb (GetNamespace obj) "" then SetNamespace (Namespace rel) obj
  else obj.

Fixpoint verifyLoop (client : Client) (restMap : RESTMapper) (rel : Release)
    (resourceID : ResourceID) (objs : list Unstructured)
    : M St (VerifyResult Err) :=
  match objs with
  | [] => ret (Some (true, "", None))
  | obj :: rest =>
      match RESTMapper_RESTMapping restMap
              (GVK_GroupKind (GetGroupVersionKind obj))
              (gvk_Version (GetGroupVersionKind obj)) with
      | inr _ => verifyLoop client restMap rel resourceID rest
      | inl mapping =>
          let obj := defaultNamespace rel obj in
          let* captured := fetchWithRetry client mapping obj in
          match captured with
          | (_, Some err) => ret (Some (false, "", Some err))
          | (None, None) => ret None
          | (Some res, None) =>
              match GetAnnotations res !! AntecedentAnnotation with
              | Some v =>
                  ret (Some (String.eqb v (ID_String resourceID), v, None))
              | None => verifyLoop client restMap rel resourceID rest
              end
          end
      end
  end.

Definition annotatedWithResourceID (rng : MapRange) (kubeConfig : Config)
    (rel : Release) (resourceID : ResourceID) : M St (VerifyResult Err) :=
  match dynamic_NewForConfig kubeConfig with
  | inr err => ret (Some (false, "", Some err))
  | inl client =>
      let* r := buildDiscoveryRestMapper kubeConfig in
      match r with
      | inr err => ret (Some (false, "", Some err))
      | inl restMap =>
          let* objs :=
            releaseManifestToUnstructured rng (Manifest rel) NopLogger in
          verifyLoop client restMap rel resourceID objs
      end
  end.

(** *** annotateWithResourceID *)

(** Line 112: the patch document, by concatenation. *)
Definition annotationPatch (resourceID : ResourceID) : string :=
  ("{" ++ dq ++ "metadata" ++ dq ++ ":{" ++ dq ++ "annotations" ++ dq ++ ":{" ++ dq)
    ++ AntecedentAnnotation ++ (dq ++ ":" ++ dq)
    ++ ID_String resourceID ++ (dq ++ "}}}").

Fixpoint claimLoop (logger : Logger) (client : Client) (restMap : RESTMapper)
    (rel : Release) (annotation : string) (objs : list Unstructured)
    : M St unit :=
  match objs with
  | [] => ret tt
  | obj :: rest =>
      match RESTMapper_RESTMapping restMap
              (GVK_GroupKind (GetGroupVersionKind obj))
              (gvk_Version (GetGroupVersionKind obj)) with
      | inr err =>
          Log logger (LogRESTMappingFailed (GetGroupVersionKind obj) err) ;;;
          claimLoop logger client restMap rel annotation rest
      | inl mapping =>
          let obj := defaultNamespace rel obj in
          let* r := sendPatch client (Resource mapping) (GetNamespace obj)
                              (GetName obj) MergePatchType annotation in
          match r with
          | inr err =>
              Log logger (LogPatchFailed (GetKind obj) (GetName obj) err) ;;;
              claimLoop logger client restMap rel annotation rest
          | inl _ => claimLoop logger client restMap rel annotation rest
          end
      end
  end.

Definition annotateWithResourceID (rng : MapRange) (logger : Logger)
    (kubeConfig : Config) (rel : Release) (resourceID : ResourceID)
    : M St (error Err) :=
  match dynamic_NewForConfig kubeConfig with
  | inr err => ret (Some err)
  | inl client =>
      let* r := buildDiscoveryRestMapper kubeConfig in
      match r with
      | inr err => ret (Some err)
      | inl restMap =>
          let annotation := annotationPatch resourceID in
          let* objs :=
            releaseManifestToUnstructured rng (Manifest rel) logger in
          claimLoop logger client restMap rel annotation objs ;;;
          ret None
      end
  end.
End Code.

(** ** JSON documents

    The body of a patch is JSON text.  [JSON] is the value such a text
    denotes: objects are finite maps (a Go [map[string]interface{}]), numbers
    keep their literal. *)

Inductive JSON :=
| JNull
| JBool (b : bool)
| JNumber (lit : string)
| JString (s : string)
| JArray (l : list JSON)
| JObject (m : gmap string JSON).


(** The decoder: a scanner over the bytes of the text with a stack of the
    containers being read, after Go's [encoding/json].  The scanner works on
    bytes; the value of a string token is coerced to well-formed UTF-8. *)
Module Json.

Definition code (c : ascii) : N := N_of_ascii c.

Definition isSpace (c : ascii) : bool :=
  (code c =? 32)%N || (code c =? 9)%N || (code c =? 10)%N || (code c =? 13)%N.

Definition isDigit (c : ascii) : bool := (48 <=? code c)%N && (code c <=? 57)%N.

Definition hexValue (c : ascii) : option N :=
  let n := code c in
  if (48 <=? n)%N && (n <=? 57)%N then Some (n - 48)%N
  else if (97 <=? n)%N && (n <=? 102)%N then Some (n - 87)%N
  else if (65 <=? n)%N && (n <=? 70)%N then Some (n - 55)%N
  else None.

Definition byte (n : N) : ascii := ascii_of_N n.

(** UTF-8 encoding of a code point. *)
Definition utf8 (cp : N) : string :=
  if (cp <? 128)%N then String (byte cp) ""
  else if (cp <? 2048)%N then
    String (byte (192 + cp / 64)) (String (byte (128 + cp mod 64)) "")
  else if (cp <? 65536)%N then
    String (byte (224 + cp / 4096))
      (String (byte (128 + (cp / 64) mod 64)) (String (byte (128 + cp mod 64)) ""))
  else
    String (byte (240 + cp / 262144))
      (String (byte (128 + (cp / 4096) mod 64))
         (String (byte (128 + (cp / 64) mod 64)) (String (byte (128 + cp mod 64)) ""))).

Definition hex4 (a b c d : ascii) : option N :=
  match hexValue a, hexValue b, hexValue c, hexValue d with
  | Some x, Some y, Some z, Some w => Some (((x * 16 + y) * 16 + z) * 16 + w)%N
  | _, _, _, _ => None
  end.

Definition replacement : N := 65533.

Definition escaped (c : ascii) : ascii :=
  if (code c =? 98)%N then byte 8
  else if (code c =? 102)%N then byte 12
  else if (code c =? 110)%N then byte 10
  else if (code c =? 114)%N then byte 13
  else if (code c =? 116)%N then byte 9
  else c.

(** [utf8.DecodeRune] on a byte at or above 128: the number of continuation
    bytes of the encoding that starts there, when it is a valid one. *)
Definition within (lo hi : N) (c : ascii) : bool :=
  (lo <=? code c)%N && (code c <=? hi)%N.

Definition utf8Tail (c : ascii) (rest : string) : option nat :=
  let n := code c in
  if (194 <=? n)%N && (n <=? 223)%N then
    match rest with
    | String c1 _ => if within 128 191 c1 then Some 1 else None
    | _ => None
    end
  else if (224 <=? n)%N && (n <=? 239)%N then
    match rest with
    | String c1 (String c2 _) =>
        if within (if (n =? 224)%N then 160 else 128)
                  (if (n =? 237)%N then 159 else 191) c1
           && within 128 191 c2
        then Some 2 else None
    | _ => None
    end
  else if (240 <=? n)%N && (n <=? 244)%N then
    match rest with
    | String c1 (String c2 (String c3 _)) =>
        if within (if (n =? 240)%N then 144 else 128)
                  (if (n =? 244)%N then 143 else 191) c1
           && within 128 191 c2 && within 128 191 c3
        then Some 3 else None
    | _ => None
    end
  else None.

(** The value of a string token from the text between its quotes.  Bytes
    below 128 stand for themselves; at a byte at or above 128 a valid UTF-8
    encoding is copied ([pending] counts its bytes still to copy) and
    anything else becomes U+FFFD, one byte at a time. *)
Fixpoint unquoteFrom (pending : nat) (s : string) : string :=
  match s, pending with
  | EmptyString, _ => ""
  | String c rest, S p => String c (unquoteFrom p rest)
  | String c rest, 0 =>
      if (code c =? 92)%N then
        match rest with
        | String e rest1 =>
            if (code e =? 117)%N then
              match rest1 with
              | String h1 (String h2 (String h3 (String h4 rest2))) =>
                  match hex4 h1 h2 h3 h4 with
                  | Some cp =>
                      if (55296 <=? cp)%N && (cp <? 56320)%N then
                        match rest2 with
                        | String b (String u (String l1 (String l2 (String l3 (String l4 rest3))))) =>
                            match (if (code b =? 92)%N && (code u =? 117)%N
                                   then hex4 l1 l2 l3 l4 else None) with
                            | Some lo =>
                                if (56320 <=? lo)%N && (lo <? 57344)%N then
                                  utf8 (65536 + (cp - 55296) * 1024 + (lo - 56320))
                                    ++ unquoteFrom 0 rest3
                                else utf8 replacement ++ unquoteFrom 0 rest2
                            | None => utf8 replacement ++ unquoteFrom 0 rest2
                            end
                        | _ => utf8 replacement ++ unquoteFrom 0 rest2
                        end
                      else if (56320 <=? cp)%N && (cp <? 57344)%N then
                        utf8 replacement ++ unquoteFrom 0 rest2
                      else utf8 cp ++ unquoteFrom 0 rest2
                  | None => ""
                  end
              | _ => ""
              end
            else String (escaped e) (unquoteFrom 0 rest1)
        | EmptyString => ""
        end
      else if (code c <? 128)%N then String c (unquoteFrom 0 rest)
      else
        match utf8Tail c rest with
        | Some k => String c (unquoteFrom k rest)
        | None => utf8 replacement ++ unquoteFrom 0 rest
        end
  end.

Definition unquote (s : string) : string := unquoteFrom 0 s.


Inductive NumState :=
| NMinus | NZero | NInt | NDot | NFrac | NExp | NExpSign | NExpDigits.

Definition numAccepting (st : NumState) : bool :=
  match st with NZero | NInt | NFrac | NExpDigits => true | _ => false end.

Definition numStep (st : NumState) (c : ascii) : option NumState :=
  let n := code c in
  let isE := (n =? 101)%N || (n =? 69)%N in
  match st with
  | NMinus => if (n =? 48)%N then Some NZero else if isDigit c then Some NInt else None
  | NZero => if (n =? 46)%N then Some NDot else if isE then Some NExp else None
  | NInt => if isDigit c then Some NInt
            else if (n =? 46)%N then Some NDot else if isE then Some NExp else None
  | NDot => if isDigit c then Some NFrac else None
  | NFrac => if isDigit c then Some NFrac else if isE then Some NExp else None
  | NExp => if (n =? 43)%N || (n =? 45)%N then Some NExpSign
            else if isDigit c then Some NExpDigits else None
  | NExpSign => if isDigit c then Some NExpDigits else None
  | NExpDigits => if isDigit c then Some NExpDigits else None
  end.

(** Scanner states, after [encoding/json]'s scanner. *)
Inductive Lex :=
| BeginValue
| BeginValueOrEmpty
| BeginStringOrEmpty
| BeginString
| EndValue
| ObjectKeyEnd
| InString (raw : string)
| InStringEsc (raw : string)
| InStringEscU (raw : string) (n : nat)
| InNumber (st : NumState) (lit : string)
| InLiteral (rest : string) (v : JSON).

(** Containers being read: an array with its elements so far, an object
    waiting for a key, an object waiting for the value of a key. *)
Inductive Frame :=
| FArray (acc : list JSON)
| FObjectKey (m : gmap string JSON)
| FObjectValue (m : gmap string JSON) (k : string).

Record Machine := mkMachine
  { lex : Lex; stack : list Frame; result : option JSON }.

Definition snoc (s : string) (c : ascii) : string := s ++ String c "".

(** A value is complete. *)
Definition finish (v : JSON) (stk : list Frame) (res : option JSON) : option Machine :=
  match stk with
  | [] => match res with
          | None => Some (mkMachine EndValue [] (Some v))
          | Some _ => None
          end
  | FArray acc :: stk' => Some (mkMachine EndValue (FArray (acc ++ [v]) :: stk') res)
  | FObjectValue m k :: stk' =>
      Some (mkMachine EndValue (FObjectKey (<[k:=v]> m) :: stk') res)
  | FObjectKey _ :: _ => None
  end.

Definition stepEndValue (c : ascii) (stk : list Frame) (res : option JSON)
    : option Machine :=
  let n := code c in
  if isSpace c then Some (mkMachine EndValue stk res)
  else match stk with
       | FArray acc :: stk' =>
           if (n =? 44)%N then Some (mkMachine BeginValue stk res)
           else if (n =? 93)%N then finish (JArray acc) stk' res
           else None
       | FObjectKey m :: stk' =>
           if (n =? 44)%N then Some (mkMachine BeginString stk res)
           else if (n =? 125)%N then finish (JObject m) stk' res
           else None
       | _ => None
       end.

Definition stepBeginString (c : ascii) (stk : list Frame) (res : option JSON)
    (l : Lex) : option Machine :=
  if isSpace c then Some (mkMachine l stk res)
  else if (code c =? 34)%N then Some (mkMachine (InString "") stk res)
  else None.

Definition stepBeginValue (c : ascii) (stk : list Frame) (res : option JSON)
    (l : Lex) : option Machine :=
  let n := code c in
  if isSpace c then Some (mkMachine l stk res)
  else if (n =? 123)%N then
    Some (mkMachine BeginStringOrEmpty (FObjectKey ∅ :: stk) res)
  else if (n =? 91)%N then
    Some (mkMachine BeginValueOrEmpty (FArray [] :: stk) res)
  else if (n =? 34)%N then Some (mkMachine (InString "") stk res)
  else if (n =? 45)%N then Some (mkMachine (InNumber NMinus (String c "")) stk res)
  else if (n =? 48)%N then Some (mkMachine (InNumber NZero (String c "")) stk res)
  else if isDigit c then Some (mkMachine (InNumber NInt (String c "")) stk res)
  else if (n =? 116)%N then Some (mkMachine (InLiteral "rue" (JBool true)) stk res)
  else if (n =? 102)%N then Some (mkMachine (InLiteral "alse" (JBool false)) stk res)
  else if (n =? 110)%N then Some (mkMachine (InLiteral "ull" JNull) stk res)
  else None.

Definition step (c : ascii) (m : Machine) : option Machine :=
  let n := code c in
  let stk := stack m in
  let res := result m in
  match lex m with
  | BeginValue => stepBeginValue c stk res BeginValue
  | BeginValueOrEmpty =>
      if (n =? 93)%N then
        match stk with
        | FArray acc :: stk' => finish (JArray acc) stk' res
        | _ => None
        end
      else stepBeginValue c stk res BeginValueOrEmpty
  | BeginStringOrEmpty =>
      if (n =? 125)%N then
        match stk with
        | FObjectKey m :: stk' => finish (JObject m) stk' res
        | _ => None
        end
      else stepBeginString c stk res BeginStringOrEmpty
  | BeginString => stepBeginString c stk res BeginString
  | EndValue => stepEndValue c stk res
  | ObjectKeyEnd =>
      if isSpace c then Some m
      else if (n =? 58)%N then Some (mkMachine BeginValue stk res)
      else None
  | InString raw =>
      if (n =? 34)%N then
        match stk with
        | FObjectKey o :: stk' =>
            Some (mkMachine ObjectKeyEnd (FObjectValue o (unquote raw) :: stk') res)
        | _ => finish (JString (unquote raw)) stk res
        end
      else if (n =? 92)%N then Some (mkMachine (InStringEsc (snoc raw c)) stk res)
      else if (n <? 32)%N then None
      else Some (mkMachine (InString (snoc raw c)) stk res)
  | InStringEsc raw =>
      if (n =? 98)%N || (n =? 102)%N || (n =? 110)%N || (n =? 114)%N
         || (n =? 116)%N || (n =? 92)%N || (n =? 47)%N || (n =? 34)%N
      then Some (mkMachine (InString (snoc raw c)) stk res)
      else if (n =? 117)%N then Some (mkMachine (InStringEscU (snoc raw c) 4) stk res)
      else None
  | InStringEscU raw k =>
      match hexValue c with
      | Some _ =>
          match k with
          | 0 | 1 => Some (mkMachine (InString (snoc raw c)) stk res)
          | S k' => Some (mkMachine (InStringEscU (snoc raw c) k') stk res)
          end
      | None => None
      end
  | InNumber st lit =>
      match numStep st c with
      | Some st' => Some (mkMachine (InNumber st' (snoc lit c)) stk res)
      | None =>
          if numAccepting st then
            match finish (JNumber lit) stk res with
            | Some m' => stepEndValue c (stack m') (result m')
            | None => None
            end
          else None
      end
  | InLiteral rest v =>
      match rest with
      | String c' rest' =>
          if (n =? code c')%N then
            match rest' with
            | EmptyString => finish v stk res
            | _ => Some (mkMachine (InLiteral rest' v) stk res)
            end
          else None
      | EmptyString => None
      end
  end.

Fixpoint run (s : string) (m : Machine) : option Machine :=
  match s with
  | EmptyString => Some m
  | String c s' =>
      match step c m with
      | Some m' => run s' m'
      | None => None
      end
  end.

Definition start : Machine := mkMachine BeginValue [] None.

(** End of input. *)
Definition eof (m : Machine) : option JSON :=
  match lex m, stack m with
  | EndValue, [] => result m
  | InNumber st lit, [] =>
      if numAccepting st then
        match result m with None => Some (JNumber lit) | Some _ => None end
      else None
  | _, _ => None
  end.

(** [json.Unmarshal] into an untyped value. *)
Definition Unmarshal (s : string) : option JSON :=
  match run s start with
  | Some m => eof m
  | None => None
  end.

(** [json.Valid]. *)
Definition Valid (s : string) : bool :=
  match Unmarshal s with Some _ => true | None => false end.

End Json.

(** ** JSON merge patch (RFC 7386)

    A member of the patch that is null removes the member of the target; any
    other member is merged into the target's member of that name; a patch
    that is not an object replaces the target. *)

Definition applyMember (tv : option JSON)
    (pf : option (option (option JSON -> JSON))) : option JSON :=
  match pf with
  | None => tv
  | Some None => None
  | Some (Some f) => Some (f tv)
  end.

Fixpoint mergePatch (patch : JSON) (target : option JSON) {struct patch} : JSON :=
  match patch with
  | JObject pm =>
      let tm := match target with Some (JObject tm) => tm | _ => ∅ end in
      JObject (merge applyMember tm
                 ((fun v => match v with
                            | JNull => None
                            | _ => Some (mergePatch v)
                            end) <$> pm))
  | _ => patch
  end.


(** The value at a path of member names. *)
Fixpoint getPath (p : list string) (j : JSON) : option JSON :=
  match p with
  | [] => Some j
  | k :: p' =>
      match j with
      | JObject m => match m !! k with Some v => getPath p' v | None => None end
      | _ => None
      end
  end.




Definition antecedentPath : list string :=
  ["metadata"; "annotations"; AntecedentAnnotation].

(** ** Unstructured view of a JSON object *)

Definition stringField (m : gmap string JSON) (k : string) : string :=
  match m !! k with Some (JString s) => s | _ => "" end.

Definition objectField (m : gmap string JSON) (k : string) : gmap string JSON :=
  match m !! k with Some (JObject o) => o | _ => ∅ end.

Definition isJString (v : JSON) : bool :=
  match v with JString _ => true | _ => false end.

(** [NestedStringMap]: the map when every value is a string, else nothing. *)
Definition stringMap (m : gmap string JSON) : gmap string string :=
  if bool_decide (map_Forall (fun _ v => isJString v = true) m)
  then omap (fun v => match v with JString s => Some s | _ => None end) m
  else ∅.

Record View := mkView
  { asObject : option Unstructured;
    asArray : option (list (option Unstructured)) }.

Fixpoint view (j : JSON) : View :=
  match j with
  | JObject m =>
      let metadata := objectField m "metadata" in
      mkView
        (Some (mkUnstructured
                 (stringField m "apiVersion") (stringField m "kind")
                 (stringField metadata "namespace")
                 (stringField metadata "name")
                 (stringMap (objectField metadata "annotations"))
                 (match (view <$> m) !! "items" with
                  | Some v => asArray v
                  | None => None
                  end)))
        None
  | JArray l => mkView None (Some (map (fun e => asObject (view e)) l))
  | _ => mkView None None
  end.

(** The unstructured object a JSON object is read as. *)
Definition toUnstructured (m : gmap string JSON) : Unstructured :=
  match asObject (view (JObject m)) with
  | Some u => u
  | None => mkUnstructured "" "" "" "" ∅ None
  end.

(** ** A reference API server

    A cluster to run the code on: it stores JSON objects, has a table of
    resource types, applies merge patches as RFC 7386 says, and makes the
    next calls fail with the errors queued in [faults] (one for each call).
    A call of [GetAPIGroupResources] either returns the whole table or, when
    a fault is due, returns that error (as when the groups cannot be
    listed); partial tables are not among its answers.  Manifests are read in
    the JSON subset of YAML. *)

Module Apiserver.

Inductive Err :=
| ErrConnectionReset
| ErrInternalError
| ErrTimeout
| ErrTooManyRequests
| ErrRetryAfter (seconds : Z)
| ErrNotFound
| ErrBadRequest
| ErrUnsupportedMediaType
| ErrInvalidConfig
| ErrNoMatch.

Abbreviation Key := (string * string * string * string * string)%type.

Definition keyOf (gvr : GroupVersionResource) (ns name : string) : Key :=
  (gvr_Group gvr, gvr_Version gvr, gvr_Resource gvr, ns, name).

Record World := mkWorld
  { objects : gmap Key JSON;
    apiResources : list (GroupVersionKind * GroupVersionResource);
    faults : list Err }.

(** [rest.Config], as far as the constructors care: usable or not. *)
Record Config := mkConfig { usable : bool }.

Definition newForConfig (cfg : Config) : unit + Err :=
  if usable cfg then inl tt else inr ErrInvalidConfig.

Definition discover (_ : unit) (w : World)
    : (list (GroupVersionKind * GroupVersionResource) + Err) * World :=
  match faults w with
  | e :: fs => (inr e, mkWorld (objects w) (apiResources w) fs)
  | [] => (inl (apiResources w), w)
  end.

Definition sameGVK (gk : GroupKind) (version : string) (gvk : GroupVersionKind) : bool :=
  String.eqb (gk_Group gk) (gvk_Group gvk) && String.eqb (gk_Kind gk) (gvk_Kind gvk)
  && String.eqb version (gvk_Version gvk).

Fixpoint restMapping (table : list (GroupVersionKind * GroupVersionResource))
    (gk : GroupKind) (version : string) : RESTMapping + Err :=
  match table with
  | [] => inr ErrNoMatch
  | (gvk, gvr) :: table' =>
      if sameGVK gk version gvk then inl (mkRESTMapping gvr gvk)
      else restMapping table' gk version
  end.

Definition get (_ : unit) (gvr : GroupVersionResource) (ns name : string)
    (w : World) : (Unstructured + Err) * World :=
  match faults w with
  | e :: fs => (inr e, mkWorld (objects w) (apiResources w) fs)
  | [] =>
      match objects w !! keyOf gvr ns name with
      | Some (JObject m) => (inl (toUnstructured m), w)
      | Some _ => (inr ErrInternalError, w)
      | None => (inr ErrNotFound, w)
      end
  end.

(** What a merge patch with the given body makes of a stored object; [None]
    when the body is refused. *)
Definition patched (body : string) (target : JSON) : option JSON :=
  match Json.Unmarshal body with
  | Some (JObject pm) => Some (mergePatch (JObject pm) (Some target))
  | _ => None
  end.

Definition patch (_ : unit) (gvr : GroupVersionResource) (ns name : string)
    (pt : PatchType) (body : string) (w : World) : (Unstructured + Err) * World :=
  match faults w with
  | e :: fs => (inr e, mkWorld (objects w) (apiResources w) fs)
  | [] =>
      match objects w !! keyOf gvr ns name with
      | None => (inr ErrNotFound, w)
      | Some target =>
          match pt with
          | MergePatchType =>
              match patched body target with
              | Some (JObject m) =>
                  (inl (toUnstructured m),
                   mkWorld (<[keyOf gvr ns name := JObject m]> (objects w))
                           (apiResources w) (faults w))
              | _ => (inr ErrBadRequest, w)
              end
          | _ => (inr ErrUnsupportedMediaType, w)
          end
      end
  end.



#[export] Instance classifiers : ErrorClassifiers Err := {|
  IsConnectionReset e := match e with ErrConnectionReset => true | _ => false end;
  IsInternalError e := match e with ErrInternalError => true | _ => false end;
  IsTimeout e := match e with ErrTimeout => true | _ => false end;
  IsTooManyRequests e := match e with ErrTooManyRequests => true | _ => false end;
  SuggestsClientDelay e :=
    match e with ErrRetryAfter n => (n, true) | _ => (0%Z, false) end
|}.

#[export] Instance kube : Kube Config Err World := {|
  Client := unit;
  DiscoveryClient := unit;
  GroupResources := list (GroupVersionKind * GroupVersionResource);
  RESTMapper := list (GroupVersionKind * GroupVersionResource);
  dynamic_NewForConfig := newForConfig;
  NewDiscoveryClientForConfig := newForConfig;
  GetAPIGroupResources := discover;
  NewDiscoveryRESTMapper := fun g => g;
  RESTMapper_RESTMapping := restMapping;
  client_Get := get;
  client_Patch := patch
|}.

Definition lf : ascii := "010"%char.

(** [strings.TrimSpace] removes the white space of [unicode.IsSpace] at both
    ends.  [spaceLen] is the number of bytes of a white space character at the
    head of a text (none: 0), [spaceLenRev] the same at the head of the
    reversed text. *)
Definition asciiSpace (c : ascii) : bool :=
  let n := Json.code c in ((9 <=? n)%N && (n <=? 13)%N) || (n =? 32)%N.

Definition spaceLen (s : string) : nat :=
  match s with
  | String c r =>
      let n := Json.code c in
      if asciiSpace c then 1
      else
        match r with
        | String d r' =>
            let m := Json.code d in
            if (n =? 194)%N then (if (m =? 133)%N || (m =? 160)%N then 2 else 0)
            else
              match r' with
              | String e _ =>
                  let k := Json.code e in
                  if (n =? 225)%N then (if (m =? 154)%N && (k =? 128)%N then 3 else 0)
                  else if (n =? 226)%N then
                    (if ((m =? 128)%N
                         && (((128 <=? k)%N && (k <=? 138)%N)
                             || (k =? 168)%N || (k =? 169)%N || (k =? 175)%N))
                        || ((m =? 129)%N && (k =? 159)%N)
                     then 3 else 0)
                  else if (n =? 227)%N then
                    (if (m =? 128)%N && (k =? 128)%N then 3 else 0)
                  else 0
              | _ => 0
              end
        | _ => 0
        end
  | _ => 0
  end.

Definition spaceLenRev (s : string) : nat :=
  match s with
  | String c r =>
      if asciiSpace c then 1
      else
        match r with
        | String d r' =>
            if Nat.eqb (spaceLen (String d (String c ""))) 2 then 2
            else
              match r' with
              | String e _ =>
                  if Nat.eqb (spaceLen (String e (String d (String c "")))) 3 then 3
                  else 0
              | _ => 0
              end
        | _ => 0
        end
  | _ => 0
  end.

Fixpoint dropWhile (len : string -> nat) (skip : nat) (s : string) : string :=
  match s, skip with
  | String _ r, S k => dropWhile len k r
  | String _ r, 0 =>
      match len s with
      | 0 => s
      | S k => dropWhile len k r
      end
  | EmptyString, _ => ""
  end.

Definition TrimSpace (s : string) : string :=
  String.rev (dropWhile spaceLenRev 0 (String.rev (dropWhile spaceLen 0 s))).

(** Helm splits the text at the matches of the regular expression
    [(?:^|\s*\n)---\s*]: three dashes at the very start of the text, or after
    white space that ends in a line feed, together with the white space
    around them ([\s] is tab, line feed, form feed, carriage return and
    space).  [cur] is the document being read, [ws] the white space read
    since its last other character and [nl] whether that white space ends in
    a line feed. *)
Definition reSpace (c : ascii) : bool :=
  let n := Json.code c in
  (n =? 9)%N || (n =? 10)%N || (n =? 12)%N || (n =? 13)%N || (n =? 32)%N.

Definition startsWithDashes (s : string) : bool :=
  match s with
  | String a (String b (String c _)) =>
      (Json.code a =? 45)%N && (Json.code b =? 45)%N && (Json.code c =? 45)%N
  | _ => false
  end.

Inductive SplitMode := Reading | Dashes (left : nat) | Eating.

Fixpoint splitAt (s : string) (mode : SplitMode) (cur ws : string) (nl : bool)
    : list string :=
  match s with
  | EmptyString => [(cur ++ ws)%string]
  | String c r =>
      match mode with
      | Dashes (S (S k)) => splitAt r (Dashes (S k)) cur ws nl
      | Dashes _ => splitAt r Eating cur ws nl
      | Eating =>
          if reSpace c then splitAt r Eating "" "" false
          else splitAt r Reading (String c "") "" false
      | Reading =>
          if reSpace c then
            splitAt r Reading cur (ws ++ String c "")%string (Ascii.eqb c lf)
          else if nl && startsWithDashes s then
            cur :: splitAt r (Dashes 2) "" "" false
          else splitAt r Reading (cur ++ ws ++ String c "")%string "" false
      end
  end.

Definition regexpSplit (s : string) : list string :=
  if startsWithDashes s then "" :: splitAt s (Dashes 3) "" "" false
  else splitAt s Reading "" "" false.

(** [releaseutil.SplitManifests], but for the map it fills: the text is
    trimmed and split, the empty pieces are left out and the others
    trimmed. *)
Definition documents (bigFile : string) : list string :=
  TrimSpace <$> filter (fun d => d <> "") (regexpSplit (TrimSpace bigFile)).

Definition unmarshal (doc : string) : option Unstructured :=
  match Json.Unmarshal doc with
  | Some (JObject m) =>
      let u := toUnstructured m in
      if String.eqb (gvk_Kind (GetGroupVersionKind u)) "" then None else Some u
  | _ => None
  end.

#[export] Instance parser : ManifestParser := {|
  splitDocuments := documents;
  yaml_Unmarshal := unmarshal
|}.

End Apiserver.

(** ** Notions used in the statements *)

Section Notions.
Context {Config Err World : Type}.
Context `{EC : ErrorClassifiers Err} `{K : Kube Config Err World}
        `{MP : ManifestParser}.

Abbreviation St := (State Err World).

(** The client and the REST mapper were built and the manifest was
    decomposed: the per-resource loop is about to start, in state [s2], over
    the descriptors [objs]. *)
Definition prepared (rng : MapRange) (logger : Logger) (kubeConfig : Config)
    (rel : Release) (s : St) (client : Client) (restMap : RESTMapper)
    (objs : list Unstructured) (s2 : St) : Prop :=
  dynamic_NewForConfig kubeConfig = inl client /\
  exists s1,
    buildDiscoveryRestMapper kubeConfig s = (inl restMap, s1) /\
    releaseManifestToUnstructured rng (Manifest rel) logger s1 = (objs, s2).

Definition resolve (restMap : RESTMapper) (obj : Unstructured)
    : RESTMapping + Err :=
  RESTMapper_RESTMapping restMap (GVK_GroupKind (GetGroupVersionKind obj))
                         (gvk_Version (GetGroupVersionKind obj)).

(** The same Get answered with the errors [es] one after the other, each of
    them transient. *)
Inductive transientFailures (client : Client) (gvr : GroupVersionResource)
    (ns name : string) : list Err -> World -> World -> Prop :=
| tf_nil w : transientFailures client gvr ns name [] w w
| tf_cons e es w w1 w2 :
    client_Get client gvr ns name w = (inr e, w1) ->
    isTransient (Some e) = true ->
    transientFailures client gvr ns name es w1 w2 ->
    transientFailures client gvr ns name (e :: es) w w2.

(** The loop of [annotatedWithResourceID] goes over these descriptors
    without returning: each of them either has no REST mapping, or is
    fetched without error and has no antecedent annotation. *)
Inductive passesOver (client : Client) (restMap : RESTMapper) (rel : Release)
    : list Unstructured -> St -> St -> Prop :=
| passes_nil s : passesOver client restMap rel [] s s
| passes_unresolved obj rest err s s' :
    resolve restMap obj = inr err ->
    passesOver client restMap rel rest s s' ->
    passesOver client restMap rel (obj :: rest) s s'
| passes_unannotated obj rest mapping res s s1 s' :
    resolve restMap obj = inl mapping ->
    fetchWithRetry client mapping (defaultNamespace rel obj) s
      = ((Some res, None), s1) ->
    GetAnnotations res !! AntecedentAnnotation = None ->
    passesOver client restMap rel rest s1 s' ->
    passesOver client restMap rel (obj :: rest) s s'.

(** The namespace a descriptor is addressed in, in the words of the spec:
    the release's when the descriptor has none, its own otherwise. *)
Definition addressedIn (rel : Release) (obj : Unstructured) (ns : string) : Prop :=
  (GetNamespace obj = "" -> ns = Namespace rel) /\
  (GetNamespace obj <> "" -> ns = GetNamespace obj).

(** What one document of the manifest contributes to the descriptors. *)
Definition contribution (doc : string) : list Unstructured :=
  match yaml_Unmarshal doc with
  | None => []
  | Some u =>
      if IsList u then
        match ToList u with Some items => items | None => [] end
      else [u]
  end.

(** The same, in the words of the spec: nothing for a document that fails
    to parse, the member items for a list wrapper, the object otherwise. *)
Definition memberItems (u : Unstructured) : list Unstructured :=
  match u_items u with Some l => omap id l | None => [] end.

Definition descriptorsOf (doc : string) : list Unstructured :=
  match yaml_Unmarshal doc with
  | None => []
  | Some u => if IsList u then memberItems u else [u]
  end.

(** The patch requests of [annotateWithResourceID], one for each descriptor
    that has a REST mapping. *)
Definition patchRequest (restMap : RESTMapper) (rel : Release)
    (annotation : string) (obj : Unstructured) : option Request :=
  match resolve restMap obj with
  | inl mapping =>
      Some (ReqPatch (Resource mapping)
              (if String.eqb (GetNamespace obj) "" then Namespace rel
               else GetNamespace obj)
              (GetName obj) MergePatchType annotation)
  | inr _ => None
  end.

(** What the logger is given over the descriptors, from the answers to the
    patch requests (one answer for each descriptor that has a mapping). *)
Fixpoint claimLog (restMap : RESTMapper) (objs : list Unstructured)
    (answers : list (option Err)) : list (LogRecord Err) :=
  match objs with
  | [] => []
  | obj :: rest =>
      match resolve restMap obj with
      | inr err =>
          LogRESTMappingFailed (GetGroupVersionKind obj) err
            :: claimLog restMap rest answers
      | inl _ =>
          match answers with
          | Some err :: answers' =>
              LogPatchFailed (GetKind obj) (GetName obj) err
                :: claimLog restMap rest answers'
          | None :: answers' => claimLog restMap rest answers'
          | [] => []
          end
      end
  end.
(** What the variables [res] and [err] hold after an answer. *)
Definition answerOf (r : Unstructured + Err)
    : option Unstructured * option Err :=
  (match r with inl u => Some u | inr _ => None end, failure r).

(** A Get for a descriptor and the error it was answered with. *)
Definition getExchange (mapping : RESTMapping) (obj : Unstructured)
    (err : option Err) : Exchange Err :=
  (ReqGet (Resource mapping) (GetNamespace obj) (GetName obj), err).

(** The variables hold an object or an error, never neither. *)
Definition settled (cap : option Unstructured * option Err) : Prop :=
  match cap with
  | (Some _, None) | (None, Some _) => True
  | _ => False
  end.

(** A Get for one of the descriptors, addressed by its name and by its
    namespace after defaulting. *)
Definition getFor (restMap : RESTMapper) (rel : Release)
    (objs : list Unstructured) (ex : Request * option Err) : Prop :=
  exists obj mapping,
    obj ∈ objs /\ resolve restMap obj = inl mapping /\
    fst ex = ReqGet (Resource mapping) (GetNamespace (defaultNamespace rel obj))
                    (GetName obj).
(** What reaches the log sink through a logger. *)
Definition logOf (logger : Logger) (records : list (LogRecord Err))
    : list (LogRecord Err) :=
  match logger with NopLogger => [] | SinkLogger => records end.

(** A merge patch with the given body for one of the descriptors, addressed
    by its name and in the namespace [addressedIn] gives. *)
Definition patchFor (restMap : RESTMapper) (rel : Release) (body : string)
    (objs : list Unstructured) (ex : Request * option Err) : Prop :=
  exists obj mapping ns,
    obj ∈ objs /\ resolve restMap obj = inl mapping /\ addressedIn rel obj ns /\
    fst ex = ReqPatch (Resource mapping) ns (GetName obj) MergePatchType body.

(** [passesOver] and [transientFailures] as computations: the state after the
    loop has gone over the descriptors, when it goes over them all; the
    cluster after the given errors were answered, when they are answered and
    are transient. *)
Fixpoint passes (client : Client) (restMap : RESTMapper) (rel : Release)
    (objs : list Unstructured) (s : St) : option St :=
  match objs with
  | [] => Some s
  | obj :: rest =>
      match resolve restMap obj with
      | inr _ => passes client restMap rel rest s
      | inl mapping =>
          match fetchWithRetry client mapping (defaultNamespace rel obj) s with
          | ((Some res, None), s1) =>
              match GetAnnotations res !! AntecedentAnnotation with
              | None => passes client restMap rel rest s1
              | Some _ => None
              end
          | _ => None
          end
      end
  end.


(** The cluster answers a Get with an object, after fewer transient
    failures than the default backoff has steps. *)
Definition servesObject (client : Client) (gvr : GroupVersionResource)
    (ns name : string) (w : World) (res : Unstructured) (w' : World) : Prop :=
  exists es w1,
    length es < Steps DefaultBackoff /\
    transientFailures client gvr ns name es w w1 /\
    client_Get client gvr ns name w1 = (inl res, w').

(** No descriptor of the list is found claimed, in the terms of what the
    cluster answers: each of them either has no REST mapping, or is served
    (in the release's namespace when it has none of its own) an object that
    has no antecedent annotation. *)
Inductive unclaimedOver (client : Client) (restMap : RESTMapper) (rel : Release)
    : list Unstructured -> World -> World -> Prop :=
| unclaimed_nil w : unclaimedOver client restMap rel [] w w
| unclaimed_unresolved obj rest err w w' :
    resolve restMap obj = inr err ->
    unclaimedOver client restMap rel rest w w' ->
    unclaimedOver client restMap rel (obj :: rest) w w'
| unclaimed_served obj rest mapping res w w1 w' :
    resolve restMap obj = inl mapping ->
    servesObject client (Resource mapping)
      (if String.eqb (GetNamespace obj) "" then Namespace rel else GetNamespace obj)
      (GetName obj) w res w1 ->
    GetAnnotations res !! AntecedentAnnotation = None ->
    unclaimedOver client restMap rel rest w1 w' ->
    unclaimedOver client restMap rel (obj :: rest) w w'.

(** A descriptor of a type the REST mapper knows. *)
Definition resolvable (restMap : RESTMapper) (obj : Unstructured) : bool :=
  match resolve restMap obj with inl _ => true | inr _ => false end.

(** The Gets sent for one descriptor: at least one, each for the resource
    of the descriptor's type, by the descriptor's name, in the namespace
    [addressedIn] gives.  The same for its patch. *)
Definition fetchedAs (restMap : RESTMapper) (rel : Release)
    (gets : list (Request * option Err)) (obj : Unstructured) : Prop :=
  gets <> [] /\
  exists mapping ns,
    resolve restMap obj = inl mapping /\ addressedIn rel obj ns /\
    Forall (fun ex => fst ex = ReqGet (Resource mapping) ns (GetName obj)) gets.

Definition patchedAs (restMap : RESTMapper) (rel : Release) (body : string)
    (ex : Request * option Err) (obj : Unstructured) : Prop :=
  exists mapping ns,
    resolve restMap obj = inl mapping /\ addressedIn rel obj ns /\
    fst ex = ReqPatch (Resource mapping) ns (GetName obj) MergePatchType body.

(** The two as computations on the answers of the cluster. *)
Fixpoint getsObject (client : Client) (gvr : GroupVersionResource)
    (ns name : string) (steps : nat) (w : World) : option (Unstructured * World) :=
  match steps with
  | 0 => None
  | S n =>
      match client_Get client gvr ns name w with
      | (inl res, w') => Some (res, w')
      | (inr e, w') =>
          if isTransient (Some e) then getsObject client gvr ns name n w' else None
      end
  end.

Fixpoint staysUnclaimed (client : Client) (restMap : RESTMapper) (rel : Release)
    (objs : list Unstructured) (w : World) : option World :=
  match objs with
  | [] => Some w
  | obj :: rest =>
      match resolve restMap obj with
      | inr _ => staysUnclaimed client restMap rel rest w
      | inl mapping =>
          match getsObject client (Resource mapping)
                  (if String.eqb (GetNamespace obj) "" then Namespace rel
                   else GetNamespace obj)
                  (GetName obj) (Steps DefaultBackoff) w with
          | Some (res, w1) =>
              match GetAnnotations res !! AntecedentAnnotation with
              | None => staysUnclaimed client restMap rel rest w1
              | Some _ => None
              end
          | None => None
          end
      end
  end.

(** A document that is a list whose conversion by [ToList] fails. *)
Definition failsToList (doc : string) : bool :=
  match yaml_Unmarshal doc with
  | Some u => IsList u && match ToList u with None => true | Some _ => false end
  | None => false
  end.
End Notions.

(** A string that can stand between the quotes of a JSON string as it is:
    no double quote, no backslash, no control character. *)
Definition plainChar (c : ascii) : bool :=
  negb (Json.code c =? 34)%N && negb (Json.code c =? 92)%N
  && negb (Json.code c <? 32)%N.

Fixpoint plainText (s : string) : bool :=
  match s with
  | EmptyString => true
  | String c r => plainChar c && plainText r
  end.

(** Bytes below 128 only. *)
Fixpoint asciiText (s : string) : bool :=
  match s with
  | EmptyString => true
  | String c r => (Json.code c <? 128)%N && asciiText r
  end.

(** The object with the single member [v] at the end of a path. *)
Fixpoint singletonAt (p : list string) (v : JSON) : JSON :=
  match p with
  | [] => v
  | k :: p' => JObject {[ k := singletonAt p' v ]}
  end.

(** The text of [annotationPatch] before and after the identifier. *)
Definition patchPrefix : string :=
  Eval vm_compute in
    (("{" ++ dq ++ "metadata" ++ dq ++ ":{" ++ dq ++ "annotations" ++ dq ++ ":{" ++ dq)
       ++ AntecedentAnnotation ++ (dq ++ ":" ++ dq))%string.

Definition patchSuffix : string := Eval vm_compute in (dq ++ "}}}")%string.

(** The containers open when the scanner reaches the identifier. *)
Definition patchFrames : list Json.Frame :=
  [Json.FObjectValue ∅ AntecedentAnnotation;
   Json.FObjectValue ∅ "annotations";
   Json.FObjectValue ∅ "metadata"].

(** The document [annotationPatch] is meant to be. *)
Definition antecedentPatch (resourceID : ResourceID) : JSON :=
  singletonAt antecedentPath (JString (ID_String resourceID)).

(** The enumeration of the map by position: [manifest-0], [manifest-1], ... *)
Definition byPosition : MapRange :=
  fun m =>
    omap (fun i => (fun d => (manifestKey i, d)) <$> m !! manifestKey i)
         (seq 0 (size m)).






(** ** A release and two clusters to run the code on *)

Module Fixture.
Import Apiserver.

Definition quoted (s : string) : string := dq ++ s ++ dq.
Definition nl : string := String lf "".
Definition bs : string := String "092" EmptyString.
Definition separator : string := nl ++ "---" ++ nl.

Definition metadataOf (ns name : string) : string :=
  quoted "metadata" ++ ":{" ++ quoted "name" ++ ":" ++ quoted name
    ++ (if String.eqb ns "" then "" else "," ++ quoted "namespace" ++ ":" ++ quoted ns)
    ++ "}".

Definition docOf (kind ns name : string) : string :=
  "{" ++ quoted "apiVersion" ++ ":" ++ quoted "v1" ++ ","
    ++ quoted "kind" ++ ":" ++ quoted kind ++ "," ++ metadataOf ns name ++ "}".

Definition listOf (items : string) : string :=
  "{" ++ quoted "apiVersion" ++ ":" ++ quoted "v1" ++ ","
    ++ quoted "kind" ++ ":" ++ quoted "List" ++ ","
    ++ quoted "items" ++ ":[" ++ items ++ "]}".

(** Five documents: a config map without namespace, a document that is not
    YAML, an object of a kind the cluster does not know, a list with one
    secret in its own namespace, and another config map. *)
Definition manifest : string :=
  docOf "ConfigMap" "" "a" ++ separator ++ "not: [json" ++ separator
    ++ docOf "Gadget" "" "g" ++ separator
    ++ listOf (docOf "Secret" "other" "b") ++ separator
    ++ docOf "ConfigMap" "" "c".

(** A list one of whose items is no object. *)
Definition brokenList : string := listOf (docOf "Secret" "other" "b" ++ ",5").

Definition release : Release := mkRelease manifest "rel".
Definition config : Config := mkConfig true.
Definition owner : ResourceID := mkResourceID "rel:helmrelease/app".
Definition stranger : ResourceID := mkResourceID "dev:helmrelease/web".

Definition configMaps : GroupVersionResource := mkGVR "" "v1" "configmaps".
Definition secrets : GroupVersionResource := mkGVR "" "v1" "secrets".

Definition resources : list (GroupVersionKind * GroupVersionResource) :=
  [(mkGVK "" "v1" "ConfigMap", configMaps); (mkGVK "" "v1" "Secret", secrets)].

Definition fields (kind ns name : string) (annotations : gmap string JSON)
    : gmap string JSON :=
  {[ "apiVersion" := JString "v1"; "kind" := JString kind;
     "metadata" := JObject {[ "name" := JString name;
                              "namespace" := JString ns;
                              "annotations" := JObject annotations;
                              "labels" := JObject {[ "app" := JString "x" ]} ]};
     "data" := JObject {[ "k" := JString "v" ]} ]}.

Definition object (kind ns name : string) (annotations : gmap string JSON) : JSON :=
  JObject (fields kind ns name annotations).

Definition antecedent (resourceID : ResourceID) : gmap string JSON :=
  {[ AntecedentAnnotation := JString (ID_String resourceID) ]}.

(** Nothing is annotated. *)
Definition unclaimed : gmap Key JSON :=
  {[ keyOf configMaps "rel" "a" := object "ConfigMap" "rel" "a" ∅;
     keyOf secrets "other" "b" := object "Secret" "other" "b" {[ "note" := JString "n" ]};
     keyOf configMaps "rel" "c" := object "ConfigMap" "rel" "c" ∅ ]}.

(** The secret is annotated by [owner], the second config map by
    [stranger]. *)
Definition claimed : gmap Key JSON :=
  {[ keyOf configMaps "rel" "a" := object "ConfigMap" "rel" "a" ∅;
     keyOf secrets "other" "b" := object "Secret" "other" "b" (antecedent owner);
     keyOf configMaps "rel" "c" := object "ConfigMap" "rel" "c" (antecedent stranger) ]}.

Definition world (objs : gmap Key JSON) (fs : list Err) : World :=
  mkWorld objs resources fs.

Definition start (w : World) : State Err World := mkState w [] [].

(** The order in which the finite map lists its entries. *)
Definition asStored : MapRange := fun m => map_to_list m.

(** A descriptor as the manifest gives it. *)
Definition descriptor (kind ns name : string) : Unstructured :=
  mkUnstructured "v1" kind ns name ∅ None.

Definition secretMapping : RESTMapping :=
  mkRESTMapping secrets (mkGVK "" "v1" "Secret").

(** An identifier, as [resource.MakeID] makes it of a namespace, a kind and
    a name, whose name closes the JSON string and opens another member. *)
Definition injecting : ResourceID :=
  mkResourceID ("rel:helmrelease/x" ++ dq ++ "," ++ dq ++ "evil" ++ dq ++ ":" ++ dq ++ "y").

(** The state after discovery, the descriptors of the release, the state
    after the loop of [annotatedWithResourceID] went over some descriptors,
    whether it goes over them, and what a fetch fetched. *)
Definition discovered (w : World) : State Err World :=
  snd (buildDiscoveryRestMapper config (start w)).

Definition descriptors : list Unstructured :=
  fst (releaseManifestToUnstructured byPosition manifest NopLogger
         (start (world ∅ []))).

Definition passed (objs : list Unstructured) (s : State Err World)
    : State Err World :=
  default s (passes tt resources release objs s).

Definition goesOver (objs : list Unstructured) (s : State Err World) : bool :=
  match passes tt resources release objs s with Some _ => true | None => false end.

Definition fetched (r : (option Unstructured * option Err) * State Err World)
    : Unstructured :=
  match fst (fst r) with Some u => u | None => descriptor "" "" "" end.

Definition fetchedWell (r : (option Unstructured * option Err) * State Err World)
    : bool :=
  match fst r with (Some _, None) => true | _ => false end.



End Fixture.

(** * Properties *)

Local Open Scope list_scope.

Section RetryProperties.
Context {Config Err World : Type}.
Context `{EC : ErrorClassifiers Err} `{K : Kube Config Err World}.

Abbreviation St := (State Err World).

Lemma isTransient_split (err : error Err) :
  isTransient err
  = (onError IsConnectionReset err || onError IsInternalError err
     || onError IsTimeout err || onError IsTooManyRequests err)
    || onError (fun e => snd (SuggestsClientDelay e)) err.
Proof. reflexivity. Qed.

(** One attempt, by the answer of the server. *)
Lemma fetchCondition_ok client mapping obj (cap : option Unstructured * option Err) (s : St) res w :
  client_Get client (Resource mapping) (GetNamespace obj) (GetName obj) (cluster s)
    = (inl res, w) ->
  fetchCondition client mapping obj (cap, s)
  = ((true, None),
     ((Some res, None),
      mkState w (history s ++ [(ReqGet (Resource mapping) (GetNamespace obj)
                                       (GetName obj), None)]) (logged s))).
Proof.
  intros Hget. unfold fetchCondition, sendGet. rewrite Hget. reflexivity.
Qed.

Lemma fetchCondition_transient client mapping obj (cap : option Unstructured * option Err) (s : St) e w :
  client_Get client (Resource mapping) (GetNamespace obj) (GetName obj) (cluster s)
    = (inr e, w) ->
  isTransient (Some e) = true ->
  fetchCondition client mapping obj (cap, s)
  = ((false, None),
     ((None, Some e),
      mkState w (history s ++ [(ReqGet (Resource mapping) (GetNamespace obj)
                                       (GetName obj), Some e)]) (logged s))).
Proof.
  intros Hget Htr. unfold fetchCondition, sendGet. rewrite Hget.
  rewrite isTransient_split in Htr. cbn [failure].
  destruct (onError IsConnectionReset (Some e) || onError IsInternalError (Some e)
            || onError IsTimeout (Some e) || onError IsTooManyRequests (Some e));
    [reflexivity|].
  cbn [orb] in Htr. rewrite Htr. reflexivity.
Qed.

Lemma fetchCondition_terminal client mapping obj (cap : option Unstructured * option Err) (s : St) e w :
  client_Get client (Resource mapping) (GetNamespace obj) (GetName obj) (cluster s)
    = (inr e, w) ->
  isTransient (Some e) = false ->
  fetchCondition client mapping obj (cap, s)
  = ((false, Some e),
     ((None, Some e),
      mkState w (history s ++ [(ReqGet (Resource mapping) (GetNamespace obj)
                                       (GetName obj), Some e)]) (logged s))).
Proof.
  intros Hget Htr. unfold fetchCondition, sendGet. rewrite Hget.
  rewrite isTransient_split in Htr. apply orb_false_iff in Htr as [H1 H2].
  cbn [failure]. rewrite H1, H2. reflexivity.
Qed.

Lemma fetchCondition_final client mapping obj (cap : option Unstructured * option Err) (s : St) r w :
  client_Get client (Resource mapping) (GetNamespace obj) (GetName obj) (cluster s)
    = (r, w) ->
  isTransient (failure r) = false ->
  fetchCondition client mapping obj (cap, s)
  = ((match r with inl _ => true | inr _ => false end, failure r),
     (answerOf r,
      mkState w (history s ++ [(ReqGet (Resource mapping) (GetNamespace obj)
                                       (GetName obj), failure r)]) (logged s))).
Proof.
  intros Hget Htr. destruct r as [res|e].
  - by apply fetchCondition_ok.
  - by apply fetchCondition_terminal.
Qed.

(** Fewer transient failures than steps, then an answer that is not a
    transient failure: the loop stops at that answer. *)
Lemma backoff_run client mapping obj es :
  forall steps (cap : option Unstructured * option Err) (s : St) w1 r w2,
    length es < steps ->
    transientFailures client (Resource mapping) (GetNamespace obj) (GetName obj)
                      es (cluster s) w1 ->
    client_Get client (Resource mapping) (GetNamespace obj) (GetName obj) w1
      = (r, w2) ->
    isTransient (failure r) = false ->
    ExponentialBackoff_steps steps (fetchCondition client mapping obj) (cap, s)
    = (match r with inl _ => WaitDone | inr e => WaitConditionError e end,
       (answerOf r,
        mkState w2
          (history s ++ map (fun e => getExchange mapping obj (Some e)) es
             ++ [getExchange mapping obj (failure r)])
          (logged s))).
Proof.
  induction es as [|e es IH]; intros steps cap s w1 r w2 Hlt Htf Hget Hfin.
  - inversion Htf; subst.
    destruct steps as [|steps]; [cbn in Hlt; lia|].
    cbn [ExponentialBackoff_steps]. unfold bind.
    rewrite (fetchCondition_final _ _ _ _ _ _ _ Hget Hfin).
    destruct r; reflexivity.
  - inversion Htf as [|? ? ? w' ? Hget' Htr Hrest]; subst.
    destruct steps as [|steps]; [cbn in Hlt; lia|].
    cbn [ExponentialBackoff_steps]. unfold bind.
    rewrite (fetchCondition_transient _ _ _ _ _ _ _ Hget' Htr).
    cbn [length] in Hlt.
    erewrite IH; [|lia|exact Hrest|exact Hget|exact Hfin].
    cbn [history logged map]. rewrite <- app_assoc. reflexivity.
Qed.

End RetryProperties.

Section VerifyProperties.
Context {Config Err World : Type}.
Context `{EC : ErrorClassifiers Err} `{K : Kube Config Err World}
        `{MP : ManifestParser}.

Abbreviation St := (State Err World).

Lemma fetchWithRetry_run client mapping obj es (s : St) w1 r w2 :
  length es < Steps DefaultBackoff ->
  transientFailures client (Resource mapping) (GetNamespace obj) (GetName obj)
                    es (cluster s) w1 ->
  client_Get client (Resource mapping) (GetNamespace obj) (GetName obj) w1 = (r, w2) ->
  isTransient (failure r) = false ->
  fetchWithRetry client mapping obj s
  = (answerOf r,
     mkState w2
       (history s ++ map (fun e => getExchange mapping obj (Some e)) es
          ++ [getExchange mapping obj (failure r)])
       (logged s)).
Proof.
  intros Hlt Htf Hget Hfin. unfold fetchWithRetry, ExponentialBackoff.
  by erewrite backoff_run.
Qed.


(** Whatever the server answers, the retried fetch sends the same Get between
    once and [steps] times, each but the last answered with a transient
    error; it changes nothing else of the state, and keeps any property of the
    cluster that a Get keeps. *)
Lemma backoff_trace client mapping obj (Inv : World -> Prop) :
  (forall w, Inv w ->
     Inv (snd (client_Get client (Resource mapping) (GetNamespace obj) (GetName obj) w))) ->
  forall steps (cap : option Unstructured * option Err) (s : St),
    Inv (cluster s) ->
    exists wr cap' w' errs,
      ExponentialBackoff_steps steps (fetchCondition client mapping obj) (cap, s)
      = (wr, (cap', mkState w' (history s ++ map (getExchange mapping obj) errs)
                            (logged s)))
      /\ Inv w' /\ length errs <= steps
      /\ Forall (fun err => isTransient err = true) (removelast errs)
      /\ (0 < steps -> 0 < length errs /\ settled cap').
Proof.
  intros HI. induction steps as [|steps IH]; intros cap s Hs.
  - exists ErrWaitTimeout, cap, (cluster s), []. cbn. rewrite app_nil_r.
    destruct s. repeat split; auto; lia.
  - cbn [ExponentialBackoff_steps]. unfold bind.
    destruct (client_Get client (Resource mapping) (GetNamespace obj) (GetName obj)
                (cluster s)) as [r w] eqn:Hget.
    assert (Hw : Inv w).
    { specialize (HI _ Hs). by rewrite Hget in HI. }
    destruct (isTransient (failure r)) eqn:Htr.
    + destruct r as [res|e]; [discriminate|].
      rewrite (fetchCondition_transient _ _ _ _ _ _ _ Hget Htr).
      destruct (IH (None, Some e)
                  (mkState w (history s ++ [getExchange mapping obj (Some e)]) (logged s)) Hw)
        as (wr & cap' & w' & errs & Heq & Hw' & Hlen & Htrs & Hpos).
      unfold getExchange in Heq at 1. rewrite Heq.
      exists wr, cap', w', (Some e :: errs). cbn [history logged map length].
      rewrite <- app_assoc.
      split; [reflexivity|]. split; [exact Hw'|]. split; [lia|].
      split.
      { destruct errs as [|e' errs']; [constructor|].
        change (removelast (Some e :: e' :: errs'))
          with (Some e :: removelast (e' :: errs')).
        by constructor. }
      intros _. split; [lia|].
      destruct steps as [|steps'].
      * cbn in Heq. unfold ret in Heq.
        assert (cap' = (None, Some e)) as -> by congruence. done.
      * apply Hpos. lia.
    + rewrite (fetchCondition_final _ _ _ _ _ _ _ Hget Htr).
      exists (match r with inl _ => WaitDone | inr e => WaitConditionError e end),
        (answerOf r), w, [failure r].
      split; [by destruct r|]. split; [exact Hw|]. split; [cbn; lia|].
      split; [constructor|].
      intros _. split; [cbn; lia|]. by destruct r.
Qed.

Lemma fetchWithRetry_trace client mapping obj (Inv : World -> Prop) (s : St) :
  (forall w, Inv w ->
     Inv (snd (client_Get client (Resource mapping) (GetNamespace obj) (GetName obj) w))) ->
  Inv (cluster s) ->
  exists cap' w' errs,
    fetchWithRetry client mapping obj s
    = (cap', mkState w' (history s ++ map (getExchange mapping obj) errs) (logged s))
    /\ Inv w' /\ 0 < length errs <= Steps DefaultBackoff
    /\ Forall (fun err => isTransient err = true) (removelast errs)
    /\ settled cap'.
Proof.
  intros HI Hs. unfold fetchWithRetry, ExponentialBackoff.
  destruct (backoff_trace client mapping obj Inv HI (Steps DefaultBackoff) (None, None) s Hs)
    as (wr & cap' & w' & errs & Heq & Hw' & Hlen & Htrs & Hpos).
  rewrite Heq. exists cap', w', errs. repeat split; auto.
  - apply Hpos. cbn. lia.
  - apply Hpos. cbn. lia.
Qed.
End VerifyProperties.

Section LoopProperties.
Context {Config Err World : Type}.
Context `{EC : ErrorClassifiers Err} `{K : Kube Config Err World}
        `{MP : ManifestParser}.

Abbreviation St := (State Err World).

(** The descriptors are the contributions of the documents, in the order in
    which the documents are visited. *)
Lemma decomposeLoop_contribution logger docs :
  forall acc (s : St),
    fst (decomposeLoop logger docs acc s) = (acc ++ flat_map contribution docs)%list.
Proof.
  induction docs as [|doc docs IH]; intros acc s; cbn [decomposeLoop flat_map].
  - by rewrite app_nil_r.
  - unfold contribution at 1.
    destruct (yaml_Unmarshal doc) as [u|]; [|by rewrite IH].
    destruct (IsList u).
    + destruct (ToList u) as [items|].
      * by rewrite IH, app_assoc.
      * unfold bind. destruct (Log logger LogToListError s). by rewrite IH.
    + by rewrite IH, app_assoc.
Qed.

(** Decomposition sends nothing to the server; with the no-op logger it
    leaves the state as it is. *)
Lemma decomposeLoop_state logger docs :
  forall acc (s : St),
    cluster (snd (decomposeLoop logger docs acc s)) = cluster s
    /\ history (snd (decomposeLoop logger docs acc s)) = history s
    /\ (logger = NopLogger -> snd (decomposeLoop logger docs acc s) = s).
Proof.
  induction docs as [|doc docs IH]; intros acc s; cbn [decomposeLoop].
  - done.
  - destruct (yaml_Unmarshal doc) as [u|]; [|apply IH].
    destruct (IsList u); [|apply IH].
    destruct (ToList u) as [items|]; [apply IH|].
    unfold bind. destruct logger; cbn [Log].
    + apply IH.
    + destruct (IH acc (mkState (cluster s) (history s) (logged s ++ [LogToListError])))
        as (Hc & Hh & _).
      by rewrite Hc, Hh.
Qed.

(** ... and logs one record for each list that cannot be converted. *)
Lemma decomposeLoop_log logger docs :
  forall acc (s : St),
    snd (decomposeLoop logger docs acc s)
    = mkState (cluster s) (history s)
        (logged s ++ logOf logger
           (replicate (length (List.filter failsToList docs)) LogToListError)).
Proof.
  induction docs as [|doc docs IH]; intros acc s; cbn [decomposeLoop List.filter].
  - destruct s, logger; cbn; by rewrite app_nil_r.
  - unfold failsToList at 1.
    destruct (yaml_Unmarshal doc) as [u|]; [|apply IH].
    destruct (IsList u); cbn [andb]; [|apply IH].
    destruct (ToList u) as [items|]; [apply IH|].
    unfold bind. destruct logger; cbn [Log].
    + apply IH.
    + rewrite IH. cbn [cluster history logged length replicate logOf].
      by rewrite <- app_assoc.
Qed.

Lemma buildDiscoveryRestMapper_state kubeConfig (s : St) :
  exists r w' exs,
    buildDiscoveryRestMapper kubeConfig s
    = (r, mkState w' (history s ++ exs) (logged s))
    /\ Forall (fun ex => fst ex = ReqDiscovery) exs
    /\ (w' = cluster s
        \/ exists dc, w' = snd (GetAPIGroupResources dc (cluster s))).
Proof.
  unfold buildDiscoveryRestMapper.
  destruct (NewDiscoveryClientForConfig kubeConfig) as [dc|e].
  - unfold bind, sendDiscovery.
    destruct (GetAPIGroupResources dc (cluster s)) as [r w] eqn:Hd.
    exists (match r with inl g => inl (NewDiscoveryRESTMapper g) | inr e => inr e end),
      w, [(ReqDiscovery, failure r)].
    split; [by destruct r|]. split; [by repeat constructor|].
    right. exists dc. by rewrite Hd.
  - exists (inr e), (cluster s), []. rewrite app_nil_r. destruct s. by repeat split; auto.
Qed.

(** A prefix the loop passes over is gone through without returning. *)
Lemma verifyLoop_passes client restMap rel resourceID pre rest (s s1 : St) :
  passesOver client restMap rel pre s s1 ->
  verifyLoop client restMap rel resourceID (pre ++ rest) s
  = verifyLoop client restMap rel resourceID rest s1.
Proof.
  induction 1 as [s|obj pre err s s' Hres _ IH
                  |obj pre mapping res s s1 s' Hres Hfetch Hann _ IH];
    cbn [app verifyLoop]; [reflexivity| |].
  - unfold resolve in Hres. by rewrite Hres.
  - unfold resolve in Hres. rewrite Hres. unfold bind. rewrite Hfetch, Hann.
    exact IH.
Qed.

Lemma defaultNamespace_namespace rel obj :
  GetNamespace (defaultNamespace rel obj)
  = if String.eqb (GetNamespace obj) "" then Namespace rel else GetNamespace obj.
Proof. unfold defaultNamespace. by destruct (String.eqb _ _). Qed.

Lemma GetName_defaultNamespace rel obj :
  GetName (defaultNamespace rel obj) = GetName obj.
Proof. unfold defaultNamespace. by destruct (String.eqb _ _). Qed.

(** The exchanges of the loop: Gets, each for a descriptor of the list that
    has a mapping, addressed by the name of the descriptor and its namespace
    after defaulting.  The loop never dereferences nil, writes no log and
    keeps what a Get keeps. *)
Lemma verifyLoop_trace client restMap rel resourceID (Inv : World -> Prop) :
  (forall gvr ns name w, Inv w -> Inv (snd (client_Get client gvr ns name w))) ->
  forall objs (s : St),
    Inv (cluster s) ->
    exists r w' exs,
      verifyLoop client restMap rel resourceID objs s
      = (Some r, mkState w' (history s ++ exs) (logged s))
      /\ Inv w' /\ Forall (getFor restMap rel objs) exs.
Proof.
  intros HI. induction objs as [|obj objs IH]; intros s Hs; cbn [verifyLoop].
  - exists (true, "", None), (cluster s), []. rewrite app_nil_r. destruct s. by repeat split.
  - assert (Hweaken : forall exs,
               Forall (getFor restMap rel objs) exs ->
               Forall (getFor restMap rel (obj :: objs)) exs).
    { intros exs Hf. eapply Forall_impl; [exact Hf|]. intros ex (o & m & Hin & Hr & Hex).
      exists o, m. split; [by right|done]. }
    destruct (RESTMapper_RESTMapping restMap _ _) as [mapping|err] eqn:Hres.
    + unfold bind.
      destruct (fetchWithRetry_trace client mapping (defaultNamespace rel obj) Inv s
                  (fun w => HI _ _ _ w) Hs)
        as (cap & w1 & errs & Hfetch & Hw1 & Hlen & _ & Hset).
      rewrite Hfetch.
      assert (Hgets : Forall (getFor restMap rel (obj :: objs))
                        (map (getExchange mapping (defaultNamespace rel obj)) errs)).
      { apply Forall_forall. intros ex Hex.
        apply list_elem_of_In, in_map_iff in Hex as (e & <- & _).
        exists obj, mapping. split; [by left|]. split; [exact Hres|].
        cbn. by rewrite GetName_defaultNamespace. }
      destruct cap as [[res|] [e|]]; try done.
      * destruct (GetAnnotations res !! AntecedentAnnotation) as [v|].
        -- eexists _, w1, _. split; [reflexivity|]. by split.
        -- destruct (IH (mkState w1 (history s ++ map (getExchange mapping
                                                       (defaultNamespace rel obj)) errs)
                                 (logged s)) Hw1)
             as (r & w' & exs & Hloop & Hw' & Hexs).
           rewrite Hloop. cbn [history logged]. rewrite <- app_assoc.
           eexists r, w', _. split; [reflexivity|]. split; [done|].
           apply Forall_app. split; [done|by apply Hweaken].
      * eexists _, w1, _. split; [reflexivity|]. by split.
    + destruct (IH s Hs) as (r & w' & exs & Hloop & Hw' & Hexs).
      exists r, w', exs. split; [done|]. split; [done|by apply Hweaken].
Qed.
End LoopProperties.

Section VerifyClaims.
Context {Config Err World : Type}.
Context `{EC : ErrorClassifiers Err} `{K : Kube Config Err World}
        `{MP : ManifestParser}.

Abbreviation St := (State Err World).

Lemma verify_prepared rng kubeConfig rel resourceID (s : St) client restMap objs s2 :
  prepared rng NopLogger kubeConfig rel s client restMap objs s2 ->
  annotatedWithResourceID rng kubeConfig rel resourceID s
  = verifyLoop client restMap rel resourceID objs s2.
Proof.
  intros (Hclient & s1 & Hmap & Hobjs). unfold annotatedWithResourceID.
  rewrite Hclient. unfold bind. by rewrite Hmap, Hobjs.
Qed.

(** C1. When the loop of [annotatedWithResourceID] reaches a descriptor whose
    live object carries the antecedent annotation with value [v] (the
    descriptors before it having no mapping or no annotation), the call returns
    [(v == resourceID.String(), v, nil)] in the state reached right after the
    fetch of that descriptor: the only requests sent after the prefix are the
    Gets for that descriptor, whatever descriptors come after it. *)
Theorem verify_first_annotation_decides
    rng kubeConfig rel resourceID (s : St) client restMap pre obj post
    s2 s3 mapping res s4 v :
  prepared rng NopLogger kubeConfig rel s client restMap (pre ++ obj :: post) s2 ->
  passesOver client restMap rel pre s2 s3 ->
  resolve restMap obj = inl mapping ->
  fetchWithRetry client mapping (defaultNamespace rel obj) s3
    = ((Some res, None), s4) ->
  GetAnnotations res !! AntecedentAnnotation = Some v ->
  annotatedWithResourceID rng kubeConfig rel resourceID s
    = (Some (String.eqb v (ID_String resourceID), v, None), s4)
  /\ exists errs,
       history s4
       = history s3 ++ map (getExchange mapping (defaultNamespace rel obj)) errs.
Proof.
  intros Hprep Hpre Hres Hfetch Hann. split.
  - rewrite (verify_prepared _ _ _ _ _ _ _ _ _ Hprep).
    rewrite (verifyLoop_passes _ _ _ _ _ _ _ _ Hpre).
    cbn [verifyLoop]. unfold resolve in Hres. rewrite Hres.
    unfold bind. by rewrite Hfetch, Hann.
  - destruct (fetchWithRetry_trace client mapping (defaultNamespace rel obj)
                (fun _ => True) s3 (fun _ _ => I) I)
      as (cap & w' & errs & Heq & _).
    rewrite Hfetch in Heq. injection Heq as _ ->. by exists errs.
Qed.

(** Descriptors that are not found claimed are passed over by the loop. *)
Lemma unclaimedOver_passes client restMap rel objs w w' :
  unclaimedOver client restMap rel objs w w' ->
  forall s : St,
    cluster s = w ->
    exists exs,
      passesOver client restMap rel objs s
                 (mkState w' (history s ++ exs) (logged s))
      /\ Forall (fun ex : Request * option Err =>
                   exists gvr ns name, fst ex = ReqGet gvr ns name) exs.
Proof.
  induction 1 as [w|obj rest err w w' Hres _ IH
                  |obj rest mapping res w w1 w' Hres Hserve Hann _ IH];
    intros s Hs.
  - exists []. rewrite app_nil_r. subst w. destruct s. split; constructor.
  - destruct (IH s Hs) as (exs & Hpass & Hgets).
    exists exs. split; [by eapply passes_unresolved|done].
  - destruct Hserve as (es & wm & Hlen & Htf & Hget).
    rewrite <- defaultNamespace_namespace, <- (GetName_defaultNamespace rel obj)
      in Htf, Hget.
    rewrite <- Hs in Htf.
    pose proof (fetchWithRetry_run client mapping (defaultNamespace rel obj) es s
                  wm (inl res) w1 Hlen Htf Hget eq_refl) as Hfetch.
    change (answerOf (inl res)) with (Some res, @None Err) in Hfetch.
    match type of Hfetch with
    | _ = (_, ?s1) => destruct (IH s1 eq_refl) as (exs & Hpass & Hgets)
    end.
    cbn [history logged] in Hpass. rewrite <- app_assoc in Hpass.
    exists ((map (fun e => getExchange mapping (defaultNamespace rel obj) (Some e)) es
             ++ [getExchange mapping (defaultNamespace rel obj) None]) ++ exs).
    split; [by eapply passes_unannotated|].
    apply Forall_app. split; [|done].
    apply Forall_app. split.
    + apply Forall_forall. intros ex Hex.
      apply list_elem_of_In, in_map_iff in Hex as (e & <- & _). by eexists _, _, _.
    + constructor; [by eexists _, _, _|constructor].
Qed.

(** C2, amended. Let the client and the REST mapper be built, and let the
    cluster answer so that every descriptor of the release either has no
    REST mapping or is served, after fewer transient failures than the backoff
    has steps, an object without the antecedent annotation (no descriptor at
    all included).  Then [annotatedWithResourceID] returns [(true, "", nil)],
    having called discovery once and then only Get, and leaves the cluster
    in the state these answers lead to. *)
Theorem verify_unclaimed rng kubeConfig rel resourceID (s : St)
    client dc groups w1 w2 :
  dynamic_NewForConfig kubeConfig = inl client ->
  NewDiscoveryClientForConfig kubeConfig = inl dc ->
  GetAPIGroupResources dc (cluster s) = (inl groups, w1) ->
  unclaimedOver client (NewDiscoveryRESTMapper groups) rel
    (fst (releaseManifestToUnstructured rng (Manifest rel) NopLogger s)) w1 w2 ->
  exists exs,
    annotatedWithResourceID rng kubeConfig rel resourceID s
    = (Some (true, "", None),
       mkState w2 (history s ++ (ReqDiscovery, None) :: exs) (logged s))
    /\ Forall (fun ex : Request * option Err =>
                 exists gvr ns name, fst ex = ReqGet gvr ns name) exs.
Proof.
  intros Hclient Hdc Hdisc Hover.
  set (s1 := mkState w1 (history s ++ [(ReqDiscovery, None)]) (logged s)).
  assert (Hprep : prepared rng NopLogger kubeConfig rel s client
                    (NewDiscoveryRESTMapper groups)
                    (fst (releaseManifestToUnstructured rng (Manifest rel) NopLogger s))
                    s1).
  { split; [exact Hclient|]. exists s1. split.
    - unfold buildDiscoveryRestMapper. rewrite Hdc.
      unfold bind, sendDiscovery. by rewrite Hdisc.
    - unfold releaseManifestToUnstructured.
      pose proof (decomposeLoop_state NopLogger
                    (snd <$> rng (SplitManifests (Manifest rel))) [] s1)
        as (_ & _ & Hnop).
      specialize (Hnop eq_refl).
      rewrite !decomposeLoop_contribution.
      destruct (decomposeLoop NopLogger _ [] s1) as [objs s2] eqn:Hd.
      cbn [snd] in Hnop. subst s2. f_equal.
      pose proof (decomposeLoop_contribution NopLogger
                    (snd <$> rng (SplitManifests (Manifest rel))) [] s1) as Hc.
      by rewrite Hd in Hc. }
  destruct (unclaimedOver_passes _ _ _ _ _ _ Hover s1 eq_refl) as (exs & Hpass & Hgets).
  exists exs. split; [|exact Hgets].
  rewrite (verify_prepared _ _ _ _ _ _ _ _ _ Hprep).
  rewrite <- (app_nil_r (fst _)).
  rewrite (verifyLoop_passes _ _ _ _ _ _ _ _ Hpass).
  cbn [verifyLoop history logged]. unfold ret, s1. cbn [history logged].
  by rewrite <- app_assoc.
Qed.


(** C9. [annotatedWithResourceID] only reads: every request it sends is a
    discovery request or a Get, never a patch; it logs nothing; and whatever
    can be observed of the cluster that discovery and Gets leave as it is, is
    after the call what it was before. *)
Theorem verify_read_only {O : Type} (obs : World -> O)
    rng kubeConfig rel resourceID (s : St) :
  (forall client gvr ns name w, obs (snd (client_Get client gvr ns name w)) = obs w) ->
  (forall dc w, obs (snd (GetAPIGroupResources dc w)) = obs w) ->
  exists r w' exs,
    annotatedWithResourceID rng kubeConfig rel resourceID s
    = (Some r, mkState w' (history s ++ exs) (logged s))
    /\ obs w' = obs (cluster s)
    /\ Forall (fun ex => isRead (fst ex) = true) exs.
Proof.
  intros Hget Hdisc. unfold annotatedWithResourceID.
  destruct (dynamic_NewForConfig kubeConfig) as [client|e].
  2:{ exists (false, "", Some e), (cluster s), []. rewrite app_nil_r.
      destruct s. by repeat split. }
  unfold bind.
  destruct (buildDiscoveryRestMapper_state kubeConfig s)
    as (r & w1 & exs1 & Hbuild & Hexs1 & Hw1).
  rewrite Hbuild.
  assert (Hobs1 : obs w1 = obs (cluster s)).
  { destruct Hw1 as [->|[dc ->]]; [done|apply Hdisc]. }
  assert (Hread1 : Forall (fun ex : Request * option Err => isRead (fst ex) = true) exs1).
  { eapply Forall_impl; [exact Hexs1|]. by intros ex ->. }
  destruct r as [restMap|e].
  2:{ by exists (false, "", Some e), w1, exs1. }
  destruct (releaseManifestToUnstructured rng (Manifest rel) NopLogger
              (mkState w1 (history s ++ exs1) (logged s))) as [objs s2] eqn:Hobjs.
  assert (s2 = mkState w1 (history s ++ exs1) (logged s)) as ->.
  { unfold releaseManifestToUnstructured in Hobjs.
    pose proof (decomposeLoop_state NopLogger
                  (snd <$> rng (SplitManifests (Manifest rel))) []
                  (mkState w1 (history s ++ exs1) (logged s))) as (_ & _ & Hnop).
    rewrite Hobjs in Hnop. by apply Hnop. }
  destruct (verifyLoop_trace client restMap rel resourceID
              (fun w => obs w = obs (cluster s))
              (fun gvr ns name w Hw => eq_trans (Hget client gvr ns name w) Hw)
              objs (mkState w1 (history s ++ exs1) (logged s)) Hobs1)
    as (res & w' & exs & Hloop & Hw' & Hexs).
  rewrite Hloop. cbn [history logged]. rewrite <- app_assoc.
  exists res, w', (exs1 ++ exs). split; [done|]. split; [done|].
  apply Forall_app. split; [done|].
  eapply Forall_impl; [exact Hexs|].
  intros ex (o & m & _ & _ & ->). done.
Qed.
End VerifyClaims.

Section ClaimProperties.
Context {Config Err World : Type}.
Context `{EC : ErrorClassifiers Err} `{K : Kube Config Err World}
        `{MP : ManifestParser}.

Abbreviation St := (State Err World).

Lemma defaultNamespace_addressedIn rel obj :
  addressedIn rel obj (GetNamespace (defaultNamespace rel obj)).
Proof.
  unfold addressedIn, defaultNamespace.
  destruct (String.eqb_spec (GetNamespace obj) "") as [Heq|Hne]; split; intros H;
    try done.
Qed.

Lemma GetKind_defaultNamespace rel obj :
  GetKind (defaultNamespace rel obj) = GetKind obj.
Proof. unfold defaultNamespace. by destruct (String.eqb _ _). Qed.

(** The loop of [annotateWithResourceID] sends one merge patch for each
    descriptor that has a mapping, in the order of the descriptors and
    whatever the answers are, and logs one record for each descriptor without
    a mapping and for each patch answered with an error. *)
Lemma claimLoop_trace logger client restMap rel annotation :
  forall objs (s : St),
    exists w' answers,
      claimLoop logger client restMap rel annotation objs s
      = (tt, mkState w'
               (history s ++ zip (omap (patchRequest restMap rel annotation) objs) answers)
               (logged s ++ logOf logger (claimLog restMap objs answers)))
      /\ length answers = length (omap (patchRequest restMap rel annotation) objs).
Proof.
  induction objs as [|obj objs IH]; intros s; cbn [claimLoop claimLog].
  - exists (cluster s), []. cbn. destruct s, logger; by rewrite !app_nil_r.
  - change (omap (patchRequest restMap rel annotation) (obj :: objs))
      with (match patchRequest restMap rel annotation obj with
            | Some y => y :: omap (patchRequest restMap rel annotation) objs
            | None => omap (patchRequest restMap rel annotation) objs
            end).
    change (RESTMapper_RESTMapping restMap (GVK_GroupKind (GetGroupVersionKind obj))
              (gvk_Version (GetGroupVersionKind obj))) with (resolve restMap obj).
    pose proof (eq_refl : patchRequest restMap rel annotation obj
                          = match resolve restMap obj with
                            | inl mapping =>
                                Some (ReqPatch (Resource mapping)
                                        (if String.eqb (GetNamespace obj) ""
                                         then Namespace rel else GetNamespace obj)
                                        (GetName obj) MergePatchType annotation)
                            | inr _ => None
                            end) as Hpr.
    destruct (resolve restMap obj) as [mapping|err] eqn:Hres; rewrite Hpr.
    + unfold bind, sendPatch.
      rewrite GetName_defaultNamespace, GetKind_defaultNamespace,
        defaultNamespace_namespace.
      destruct (client_Patch client _ _ _ _ _ _) as [r w] eqn:Hpatch.
      destruct r as [res|e]; cbn [failure].
      * destruct (IH (mkState w (history s ++
                        [(ReqPatch (Resource mapping)
                            (if String.eqb (GetNamespace obj) "" then Namespace rel
                             else GetNamespace obj)
                            (GetName obj) MergePatchType annotation, None)])
                        (logged s)))
          as (w' & answers & Heq & Hlen).
        rewrite Heq. exists w', (None :: answers). cbn [history logged zip zip_with length].
        rewrite <- app_assoc. split; [reflexivity|]. cbn. by rewrite Hlen.
      * destruct logger; cbn [Log].
        -- destruct (IH (mkState w (history s ++
                        [(ReqPatch (Resource mapping)
                            (if String.eqb (GetNamespace obj) "" then Namespace rel
                             else GetNamespace obj)
                            (GetName obj) MergePatchType annotation, Some e)])
                        (logged s)))
             as (w' & answers & Heq & Hlen).
           rewrite Heq. exists w', (Some e :: answers).
           cbn [history logged zip zip_with length logOf].
           rewrite <- app_assoc. split; [reflexivity|]. cbn. by rewrite Hlen.
        -- cbn [cluster history logged].
           destruct (IH (mkState w (history s ++
                        [(ReqPatch (Resource mapping)
                            (if String.eqb (GetNamespace obj) "" then Namespace rel
                             else GetNamespace obj)
                            (GetName obj) MergePatchType annotation, Some e)])
                        (logged s ++ [LogPatchFailed (GetKind obj) (GetName obj) e])))
             as (w' & answers & Heq & Hlen).
           rewrite Heq. exists w', (Some e :: answers).
           cbn [history logged zip zip_with length logOf].
           rewrite <- !app_assoc. split; [reflexivity|]. cbn. by rewrite Hlen.
    + unfold bind. destruct logger; cbn [Log].
      * destruct (IH s) as (w' & answers & Heq & Hlen).
        rewrite Heq. by exists w', answers.
      * destruct (IH (mkState (cluster s) (history s)
                        (logged s ++ [LogRESTMappingFailed (GetGroupVersionKind obj) err])))
          as (w' & answers & Heq & Hlen).
        rewrite Heq. exists w', answers. cbn [history logged logOf].
        rewrite <- !app_assoc. by split.
Qed.

Lemma claim_prepared rng logger kubeConfig rel resourceID (s : St)
    client restMap objs s2 :
  prepared rng logger kubeConfig rel s client restMap objs s2 ->
  annotateWithResourceID rng logger kubeConfig rel resourceID s
  = (None, snd (claimLoop logger client restMap rel (annotationPatch resourceID)
                          objs s2)).
Proof.
  intros (Hclient & s1 & Hmap & Hobjs). unfold annotateWithResourceID.
  rewrite Hclient. unfold bind. rewrite Hmap, Hobjs.
  by destruct (claimLoop _ _ _ _ _ _ _).
Qed.

Lemma patchRequest_patchFor restMap rel body objs (answers : list (option Err)) :
  Forall (patchFor restMap rel body objs)
         (zip (omap (patchRequest restMap rel body) objs) answers).
Proof.
  apply Forall_forall. intros [req ans] Hin.
  apply elem_of_zip_l in Hin. cbn in Hin.
  apply list_elem_of_omap in Hin as (obj & Hobj & Hreq).
  unfold patchRequest in Hreq.
  destruct (resolve restMap obj) as [mapping|] eqn:Hres; [|done].
  injection Hreq as <-.
  exists obj, mapping, (GetNamespace (defaultNamespace rel obj)).
  split; [done|]. split; [done|]. split; [apply defaultNamespace_addressedIn|].
  cbn. by rewrite defaultNamespace_namespace.
Qed.

(** C5. [annotateWithResourceID] returns an error only when the client or the
    REST mapper cannot be built.  Once they are built it returns nil, having
    sent one merge patch for each descriptor that has a mapping, in the order
    of the descriptors and whatever the answers were, and having logged each
    descriptor without a mapping and each patch that was answered with an
    error. *)
Theorem claim_absorbs_failures rng logger kubeConfig rel resourceID (s : St) :
  match dynamic_NewForConfig kubeConfig with
  | inr err =>
      annotateWithResourceID rng logger kubeConfig rel resourceID s = (Some err, s)
  | inl client =>
      match buildDiscoveryRestMapper kubeConfig s with
      | (inr err, s1) =>
          annotateWithResourceID rng logger kubeConfig rel resourceID s
          = (Some err, s1)
      | (inl restMap, s1) =>
          let (objs, s2) :=
            releaseManifestToUnstructured rng (Manifest rel) logger s1 in
          let reqs :=
            omap (patchRequest restMap rel (annotationPatch resourceID)) objs in
          exists w' answers,
            length answers = length reqs /\
            annotateWithResourceID rng logger kubeConfig rel resourceID s
            = (None,
               mkState w' (history s2 ++ zip reqs answers)
                       (logged s2 ++ logOf logger (claimLog restMap objs answers)))
      end
  end.
Proof.
  unfold annotateWithResourceID.
  destruct (dynamic_NewForConfig kubeConfig) as [client|err]; [|reflexivity].
  unfold bind.
  destruct (buildDiscoveryRestMapper kubeConfig s) as [[restMap|err] s1];
    [|reflexivity].
  destruct (releaseManifestToUnstructured rng (Manifest rel) logger s1)
    as [objs s2].
  destruct (claimLoop_trace logger client restMap rel (annotationPatch resourceID)
              objs s2) as (w' & answers & Heq & Hlen).
  exists w', answers. split; [exact Hlen|]. by rewrite Heq.
Qed.

(** The loop of [annotatedWithResourceID] fetches the descriptors that have
    a mapping one after the other, from the first on, as far as it gets. *)
Lemma verifyLoop_visits client restMap rel resourceID :
  forall objs (s : St),
    exists groups visited,
      history (snd (verifyLoop client restMap rel resourceID objs s))
      = history s ++ concat groups
      /\ Forall2 (fetchedAs restMap rel) groups visited
      /\ visited `prefix_of` List.filter (resolvable restMap) objs
      /\ (visited = [] -> List.filter (resolvable restMap) objs = []).
Proof.
  induction objs as [|obj objs IH]; intros s.
  - exists [], []. cbn. rewrite app_nil_r. by repeat split.
  - cbn [verifyLoop List.filter].
    change (RESTMapper_RESTMapping restMap (GVK_GroupKind (GetGroupVersionKind obj))
              (gvk_Version (GetGroupVersionKind obj))) with (resolve restMap obj).
    assert (Hrb : resolvable restMap obj
                  = match resolve restMap obj with inl _ => true | inr _ => false end)
      by reflexivity.
    destruct (resolve restMap obj) as [mapping|err] eqn:Hres; rewrite Hrb;
      [|apply IH].
    unfold bind.
    destruct (fetchWithRetry_trace client mapping (defaultNamespace rel obj)
                (fun _ => True) s (fun _ _ => I) I)
      as (cap & w1 & errs & Hfetch & _ & Hlen & _ & _).
    rewrite Hfetch.
    set (gets := map (getExchange mapping (defaultNamespace rel obj)) errs).
    assert (Hgets : fetchedAs restMap rel gets obj).
    { split.
      - intros Hnil. apply (f_equal length) in Hnil. unfold gets in Hnil.
        rewrite length_map in Hnil. cbn in Hnil. lia.
      - exists mapping, (GetNamespace (defaultNamespace rel obj)).
        split; [exact Hres|]. split; [apply defaultNamespace_addressedIn|].
        apply Forall_forall. intros ex Hex.
        apply list_elem_of_In, in_map_iff in Hex as (e & <- & _).
        cbn. by rewrite GetName_defaultNamespace. }
    assert (Hstop : exists groups visited,
               history (mkState w1 (history s ++ gets) (logged s))
               = history s ++ concat groups
               /\ Forall2 (fetchedAs restMap rel) groups visited
               /\ visited `prefix_of`
                    obj :: List.filter (resolvable restMap) objs
               /\ (visited = [] -> obj :: List.filter (resolvable restMap) objs = [])).
    { exists [gets], [obj]. cbn [concat history]. rewrite app_nil_r.
      split; [done|]. split; [constructor; [exact Hgets|constructor]|].
      split; [|done]. by exists (List.filter (resolvable restMap) objs). }
    destruct cap as [[res|] [e|]]; try exact Hstop.
    destruct (GetAnnotations res !! AntecedentAnnotation); [exact Hstop|].
    destruct (IH (mkState w1 (history s ++ gets) (logged s)))
      as (groups & visited & Hh & Hall & Hpre & _).
    exists (gets :: groups), (obj :: visited). cbn [concat].
    split; [by rewrite Hh; cbn [history]; rewrite <- app_assoc|].
    split; [by constructor|]. split; [|done].
    destruct Hpre as [k ->]. by exists k.
Qed.

(** The loop of [annotateWithResourceID] patches every descriptor that has a
    mapping. *)
Lemma patchRequest_patchedAs restMap rel body :
  forall objs,
    Forall2 (fun req obj => patchedAs restMap rel body (req, @None Err) obj)
            (omap (patchRequest restMap rel body) objs)
            (List.filter (resolvable restMap) objs).
Proof.
  induction objs as [|obj objs IH]; [constructor|].
  change (omap (patchRequest restMap rel body) (obj :: objs))
    with (match patchRequest restMap rel body obj with
          | Some y => y :: omap (patchRequest restMap rel body) objs
          | None => omap (patchRequest restMap rel body) objs
          end).
  cbn [List.filter].
  assert (Hrb : resolvable restMap obj
                = match resolve restMap obj with inl _ => true | inr _ => false end)
    by reflexivity.
  unfold patchRequest at 1.
  destruct (resolve restMap obj) as [mapping|err] eqn:Hres; rewrite Hrb;
    [|exact IH].
  constructor; [|exact IH].
  exists mapping, (GetNamespace (defaultNamespace rel obj)).
  split; [exact Hres|]. split; [apply defaultNamespace_addressedIn|].
  cbn. by rewrite defaultNamespace_namespace.
Qed.

(** C8. [annotatedWithResourceID] fetches the descriptors of the release that
    have a REST mapping one after the other, from the first on and as far as
    it gets (no further than the one at which it returns), and
    [annotateWithResourceID] patches every one of them, in their order.  Each
    of these Gets and patches is for the resource of the descriptor's type and
    the descriptor's name, in the release's namespace when the descriptor has
    none and in the descriptor's own namespace otherwise; and nothing else is
    sent after discovery. *)
Theorem namespace_defaulting rng logger kubeConfig rel resourceID (s : St)
    client restMap objs s2 s2' :
  prepared rng NopLogger kubeConfig rel s client restMap objs s2 ->
  prepared rng logger kubeConfig rel s client restMap objs s2' ->
  (exists groups visited,
      history (snd (annotatedWithResourceID rng kubeConfig rel resourceID s))
      = history s2 ++ concat groups
      /\ Forall2 (fetchedAs restMap rel) groups visited
      /\ visited `prefix_of` List.filter (resolvable restMap) objs
      /\ (visited = [] -> List.filter (resolvable restMap) objs = []))
  /\ (exists patches,
      history (snd (annotateWithResourceID rng logger kubeConfig rel resourceID s))
      = history s2' ++ patches
      /\ Forall2 (patchedAs restMap rel (annotationPatch resourceID)) patches
                 (List.filter (resolvable restMap) objs)).
Proof.
  intros Hverify Hclaim. split.
  - rewrite (verify_prepared _ _ _ _ _ _ _ _ _ Hverify). apply verifyLoop_visits.
  - rewrite (claim_prepared _ _ _ _ _ _ _ _ _ _ Hclaim).
    destruct (claimLoop_trace logger client restMap rel (annotationPatch resourceID)
                objs s2') as (w' & answers & Heq & Hlen).
    rewrite Heq. eexists. split; [reflexivity|].
    pose proof (patchRequest_patchedAs restMap rel (annotationPatch resourceID) objs)
      as Hall.
    clear Heq. revert answers Hlen.
    induction Hall as [|req obj reqs objs' Hreq _ IH]; intros answers Hlen.
    + constructor.
    + destruct answers as [|answer answers]; [discriminate|].
      cbn [zip zip_with]. constructor; [|apply IH; by injection Hlen].
      destruct Hreq as (mapping & ns & Hres & Hns & Hex).
      by exists mapping, ns.
Qed.
End ClaimProperties.

Section DecompositionClaims.
Context {Config Err World : Type}.
Context `{EC : ErrorClassifiers Err} `{K : Kube Config Err World}
        `{MP : ManifestParser}.

Abbreviation St := (State Err World).

Lemma manifestKey_inj i j : manifestKey i = manifestKey j -> i = j.
Proof.
  unfold manifestKey. intros H. apply (inj pretty).
  cbn in H. by simplify_eq.
Qed.

Lemma manifestKeys_NoDup {A} (docs : list A) :
  forall k, NoDup (fst <$> imap (fun i d => (manifestKey (k + i), d)) docs).
Proof.
  induction docs as [|d docs IH]; intros k; [constructor|].
  rewrite imap_cons. cbn [fmap list_fmap fst]. constructor.
  - rewrite list_elem_of_fmap. intros ([key d'] & Hkey & Hin). cbn in Hkey.
    apply elem_of_lookup_imap_1 in Hin as (i & d'' & Heq & _).
    cbn in Heq. injection Heq as -> _.
    apply manifestKey_inj in Hkey. lia.
  - specialize (IH (S k)).
    erewrite imap_ext; [exact IH|].
    intros i x _. cbn. do 2 f_equal. lia.
Qed.

(** The documents stored in the map are the documents of the text. *)
Lemma SplitManifests_documents manifest :
  snd <$> map_to_list (SplitManifests manifest) ≡ₚ splitDocuments manifest.
Proof.
  unfold SplitManifests.
  rewrite map_to_list_to_map; [|apply (manifestKeys_NoDup _ 0)].
  rewrite fmap_imap, (imap_ext _ (const id)); [|done].
  by rewrite imap_const, list_fmap_id.
Qed.

(** Going through a list by the positions [0 .. length - 1]. *)
Lemma omap_lookup_seq {A B} (g : nat -> A -> B) (l : list A) :
  omap (fun i => g i <$> l !! i) (seq 0 (length l)) = imap g l.
Proof.
  induction l as [|x l IH] using rev_ind; [reflexivity|].
  rewrite length_app, Nat.add_1_r, seq_S, omap_app, imap_app. cbn [plus].
  f_equal.
  - rewrite <- IH. apply list_omap_ext, Forall2_same_length_lookup_2; [done|].
    intros i a b Ha Hb. rewrite Ha in Hb. injection Hb as <-.
    apply lookup_seq in Ha as [-> Hlt]. cbn. by rewrite lookup_app_l.
  - cbn. rewrite lookup_app_r by lia. rewrite Nat.sub_diag. cbn.
    by rewrite Nat.add_0_r.
Qed.

(** Gone through by position, the map gives the documents back in the order
    of the text. *)
Lemma byPosition_SplitManifests manifest :
  byPosition (SplitManifests manifest)
  = imap (fun i d => (manifestKey i, d)) (splitDocuments manifest).
Proof.
  unfold byPosition, SplitManifests.
  set (docs := splitDocuments manifest).
  assert (Hnd : NoDup (fst <$> imap (fun i d => (manifestKey i, d)) docs)).
  { apply (manifestKeys_NoDup docs 0). }
  rewrite map_size_list_to_map, length_imap by done.
  etrans; [|apply (omap_lookup_seq (fun i d => (manifestKey i, d)) docs)].
  apply list_omap_ext, Forall2_same_length_lookup_2; [reflexivity|].
  intros i a b Ha Hb. rewrite Ha in Hb. injection Hb as <-.
  apply lookup_seq in Ha as [-> Hlt]. cbn [plus].
  destruct (docs !! i) as [d|] eqn:Hd.
  - erewrite (elem_of_list_to_map_1 _ (manifestKey i) d); [done|done|].
    apply elem_of_lookup_imap. by exists i, d.
  - apply lookup_ge_None in Hd. lia.
Qed.

Lemma byPosition_documents manifest :
  snd <$> byPosition (SplitManifests manifest) = splitDocuments manifest.
Proof.
  rewrite byPosition_SplitManifests, fmap_imap, (imap_ext _ (const id)); [|done].
  by rewrite imap_const, list_fmap_id.
Qed.

(** An item of a list is smaller than the list. *)
Lemma allObjects_size l :
  forall us x,
    allObjects l = Some us -> x ∈ us ->
    usize x
    <= list_sum (map (fun o => match o with Some y => usize y | None => 0 end) l).
Proof.
  induction l as [|[y|] l IH]; intros us x Hall Hin; cbn [allObjects] in Hall.
  - injection Hall as <-. by apply not_elem_of_nil in Hin.
  - destruct (allObjects l) as [us'|] eqn:Hl; [|discriminate].
    injection Hall as <-.
    change (usize x
            <= usize y
               + list_sum (map (fun o => match o with Some y => usize y | None => 0 end)
                               l)).
    apply elem_of_cons in Hin as [->|Hin]; [lia|].
    specialize (IH us' x eq_refl Hin). lia.
  - discriminate.
Qed.

Lemma ToList_smaller u items x :
  ToList u = Some items -> x ∈ items -> usize x < usize u.
Proof.
  unfold ToList. destruct u as [av k ns name ann [l|]]; cbn [u_items usize].
  - intros Hall Hin. pose proof (allObjects_size l items x Hall Hin). lia.
  - intros [= <-] Hin. by apply not_elem_of_nil in Hin.
Qed.

(** C4, amended. The descriptors are what the documents contribute, in the
    order in which the documents are taken out of the map that
    [SplitManifests] returns: some permutation of the order of the text, and
    the order of the text when the map is gone through by position.  A
    document that fails to parse contributes nothing.  A document with an
    [items] array is not itself a descriptor: it contributes its items, as
    they are and in their order (an item that is itself a list is not
    expanded), when [ToList] succeeds, and nothing when it fails, in which
    case one record is logged.  Any other document, one of kind [List]
    without [items] included, contributes its object.  Nothing is sent to
    the cluster. *)
Theorem decomposition_follows_enumeration rng manifest logger (s : St) :
  rng (SplitManifests manifest) ≡ₚ map_to_list (SplitManifests manifest) ->
  let docs := snd <$> rng (SplitManifests manifest) in
  docs ≡ₚ splitDocuments manifest
  /\ releaseManifestToUnstructured rng manifest logger s
     = (flat_map contribution docs,
        mkState (cluster s) (history s)
          (logged s ++ logOf logger
             (replicate (length (List.filter failsToList docs)) LogToListError)))
  /\ fst (releaseManifestToUnstructured byPosition manifest logger s)
     = flat_map contribution (splitDocuments manifest)
  /\ (forall doc, yaml_Unmarshal doc = None ->
        contribution doc = [] /\ failsToList doc = false)
  /\ (forall doc u,
        yaml_Unmarshal doc = Some u -> IsList u = false ->
        contribution doc = [u] /\ failsToList doc = false)
  /\ (forall doc u items,
        yaml_Unmarshal doc = Some u -> IsList u = true -> ToList u = Some items ->
        contribution doc = items /\ (u ∉ items) /\ failsToList doc = false)
  /\ (forall doc u,
        yaml_Unmarshal doc = Some u -> IsList u = true -> ToList u = None ->
        contribution doc = [] /\ failsToList doc = true).
Proof.
  intros Hrng docs.
  assert (Hout : forall r, fst (releaseManifestToUnstructured r manifest logger s)
                 = flat_map contribution (snd <$> r (SplitManifests manifest))).
  { intros r. unfold releaseManifestToUnstructured.
    by rewrite decomposeLoop_contribution. }
  split; [|split; [|split; [|split; [|split; [|split]]]]].
  - unfold docs. rewrite Hrng. apply SplitManifests_documents.
  - rewrite (surjective_pairing (releaseManifestToUnstructured rng manifest logger s)).
    f_equal; [apply Hout|].
    unfold releaseManifestToUnstructured. apply decomposeLoop_log.
  - by rewrite Hout, byPosition_documents.
  - intros doc Hu. unfold contribution, failsToList. by rewrite Hu.
  - intros doc u Hu Hl. unfold contribution, failsToList. by rewrite Hu, Hl.
  - intros doc u items Hu Hl Hitems. unfold contribution, failsToList.
    rewrite Hu, Hl, Hitems. split; [done|]. split; [|done].
    intros Hin. pose proof (ToList_smaller u items u Hitems Hin). lia.
  - intros doc u Hu Hl Hitems. unfold contribution, failsToList.
    by rewrite Hu, Hl, Hitems.
Qed.
End DecompositionClaims.

(** ** JSON: size, induction, merge patch *)






(** ** The patch document *)

Lemma string_app_cons c (s1 s2 : string) :
  (String c s1 ++ s2)%string = String c (s1 ++ s2)%string.
Proof. reflexivity. Qed.

Lemma string_app_nil_l (s : string) : (EmptyString ++ s)%string = s.
Proof. reflexivity. Qed.

Lemma string_app_nil_r (s : string) : (s ++ "")%string = s.
Proof.
  induction s as [|a s IH]; [reflexivity|]. by rewrite string_app_cons, IH.
Qed.

Lemma run_app s1 s2 m :
  Json.run (s1 ++ s2)%string m
  = match Json.run s1 m with Some m' => Json.run s2 m' | None => None end.
Proof.
  revert m. induction s1 as [|c s1 IH]; intros m.
  - reflexivity.
  - rewrite string_app_cons. cbn [Json.run].
    destruct (Json.step c m); [apply IH|reflexivity].
Qed.

Lemma snoc_app raw c s :
  (Json.snoc raw c ++ s)%string = (raw ++ String c s)%string.
Proof.
  unfold Json.snoc. induction raw as [|a raw IH]; [reflexivity|].
  by rewrite !string_app_cons, IH.
Qed.

(** Plain text is read as it is by the scanner while in a string. *)
Lemma run_plainText s :
  forall raw stk res,
    plainText s = true ->
    Json.run s (Json.mkMachine (Json.InString raw) stk res)
    = Some (Json.mkMachine (Json.InString (raw ++ s)) stk res).
Proof.
  induction s as [|c s IH]; intros raw stk res Hplain; cbn [Json.run].
  - by rewrite string_app_nil_r.
  - cbn [plainText] in Hplain. apply andb_true_iff in Hplain as [Hc Hs].
    unfold plainChar in Hc.
    apply andb_true_iff in Hc as [Hc H32]. apply andb_true_iff in Hc as [H34 H92].
    unfold Json.step. cbn [Json.lex Json.stack Json.result].
    apply negb_true_iff in H34, H92, H32. rewrite H34, H92, H32.
    rewrite IH by done. by rewrite snoc_app.
Qed.

(** ... and, when all its bytes are below 128, its value is itself. *)
Lemma unquote_plainText s :
  plainText s = true -> asciiText s = true -> Json.unquote s = s.
Proof.
  unfold Json.unquote.
  induction s as [|c s IH]; intros Hplain Hascii; [reflexivity|].
  cbn [plainText] in Hplain. apply andb_true_iff in Hplain as [Hc Hs].
  cbn [asciiText] in Hascii. apply andb_true_iff in Hascii as [H128 Has].
  unfold plainChar in Hc.
  apply andb_true_iff in Hc as [Hc _]. apply andb_true_iff in Hc as [_ H92].
  apply negb_true_iff in H92.
  cbn [Json.unquoteFrom]. rewrite H92, H128. by rewrite IH.
Qed.

Lemma annotationPatch_concat resourceID :
  annotationPatch resourceID
  = (patchPrefix ++ ID_String resourceID ++ patchSuffix)%string.
Proof. reflexivity. Qed.

Lemma run_patchPrefix :
  Json.run patchPrefix Json.start
  = Some (Json.mkMachine (Json.InString "") patchFrames None).
Proof. vm_compute. reflexivity. Qed.

Lemma run_patchSuffix raw :
  Json.run patchSuffix (Json.mkMachine (Json.InString raw) patchFrames None)
  = Some (Json.mkMachine Json.EndValue []
            (Some (singletonAt antecedentPath (JString (Json.unquote raw))))).
Proof. reflexivity. Qed.

(** For an identifier in plain text the patch document is the JSON text of
    the object that sets the antecedent annotation to the value that the
    identifier's bytes are read as ... *)
Lemma annotationPatch_read resourceID :
  plainText (ID_String resourceID) = true ->
  Json.Unmarshal (annotationPatch resourceID)
  = Some (singletonAt antecedentPath
            (JString (Json.unquote (ID_String resourceID)))).
Proof.
  intros Hplain. unfold Json.Unmarshal.
  rewrite annotationPatch_concat, run_app, run_patchPrefix. cbv beta iota.
  rewrite run_app, run_plainText by done. cbv beta iota.
  by rewrite string_app_nil_l, run_patchSuffix.
Qed.

(** ... which is the identifier itself when its bytes are below 128. *)
Lemma annotationPatch_plain resourceID :
  plainText (ID_String resourceID) = true ->
  asciiText (ID_String resourceID) = true ->
  Json.Unmarshal (annotationPatch resourceID) = Some (antecedentPatch resourceID).
Proof.
  intros Hplain Hascii.
  by rewrite annotationPatch_read, unquote_plainText.
Qed.

(** ** What the patch does to an object *)






(** ** Claiming on the reference API server *)

Section ApiserverClaims.
Import Apiserver.

Abbreviation ASt := (State Err World).











Lemma discover_objects dc w : objects (snd (discover dc w)) = objects w.
Proof. unfold discover. by destruct (faults w). Qed.


End ApiserverClaims.

(** ** Running the notions *)

Section Reflection.
Context {Config Err World : Type}.
Context `{EC : ErrorClassifiers Err} `{K : Kube Config Err World}.

Abbreviation St := (State Err World).

Lemma passes_sound client restMap rel objs :
  forall (s s' : St),
    passes client restMap rel objs s = Some s' ->
    passesOver client restMap rel objs s s'.
Proof.
  induction objs as [|obj objs IH]; intros s s' Hrun; cbn [passes] in Hrun.
  - injection Hrun as <-. constructor.
  - destruct (resolve restMap obj) as [mapping|err] eqn:Hres.
    + destruct (fetchWithRetry client mapping (defaultNamespace rel obj) s)
        as [[[res|] [e|]] s1] eqn:Hfetch; try done.
      destruct (GetAnnotations res !! AntecedentAnnotation) eqn:Hann; [done|].
      eapply passes_unannotated; eauto.
    + eapply passes_unresolved; eauto.
Qed.

Lemma getsObject_sound client gvr ns name steps :
  forall w res w',
    getsObject client gvr ns name steps w = Some (res, w') ->
    exists es w1,
      length es < steps /\ transientFailures client gvr ns name es w w1
      /\ client_Get client gvr ns name w1 = (inl res, w').
Proof.
  induction steps as [|n IH]; intros w res w' Hrun; cbn [getsObject] in Hrun;
    [discriminate|].
  destruct (client_Get client gvr ns name w) as [[u|e] wn] eqn:Hget.
  - injection Hrun as <- <-. exists [], w. split; [cbn; lia|]. split; [constructor|done].
  - destruct (isTransient (Some e)) eqn:Htr; [|discriminate].
    destruct (IH _ _ _ Hrun) as (es & w1 & Hlen & Htf & Hlast).
    exists (e :: es), w1. split; [cbn; lia|]. split; [by econstructor|done].
Qed.

Lemma staysUnclaimed_sound client restMap rel objs :
  forall w w',
    staysUnclaimed client restMap rel objs w = Some w' ->
    unclaimedOver client restMap rel objs w w'.
Proof.
  induction objs as [|obj objs IH]; intros w w' Hrun; cbn [staysUnclaimed] in Hrun.
  - injection Hrun as <-. constructor.
  - destruct (resolve restMap obj) as [mapping|err] eqn:Hres.
    + destruct (getsObject _ _ _ _ _ _) as [[res w1]|] eqn:Hget; [|discriminate].
      destruct (GetAnnotations res !! AntecedentAnnotation) eqn:Hann; [discriminate|].
      eapply unclaimed_served; eauto.
      by apply getsObject_sound.
    + eapply unclaimed_unresolved; eauto.
Qed.
End Reflection.

Section PatchDocumentClaims.
Context {Config Err World : Type}.
Context `{EC : ErrorClassifiers Err} `{K : Kube Config Err World}
        `{MP : ManifestParser}.

Abbreviation St := (State Err World).

Lemma patchRequest_body restMap rel body objs (answers : list (option Err)) :
  Forall (fun ex : Request * option Err =>
            exists gvr ns name, fst ex = ReqPatch gvr ns name MergePatchType body)
         (zip (omap (patchRequest restMap rel body) objs) answers).
Proof.
  eapply Forall_impl; [apply patchRequest_patchFor|].
  intros ex (obj & mapping & ns & _ & _ & _ & Hex). by eexists _, _, _.
Qed.

(** C10, amended. The body of every patch that one call of
    [annotateWithResourceID] sends is the same text: the identifier's string
    form, as it is, between the fixed texts [patchPrefix] and [patchSuffix].
    When the identifier's string form has no double quote, no backslash and
    no control character, that text is well-formed JSON; when moreover its
    bytes are all below 128, the text denotes the object that sets the
    antecedent annotation to the identifier.  Nothing is escaped: for the
    identifier that is one double quote the text is not JSON. *)
Theorem claim_patch_document rng logger kubeConfig rel resourceID (s : St)
    client restMap objs s2 :
  prepared rng logger kubeConfig rel s client restMap objs s2 ->
  annotationPatch resourceID
  = (patchPrefix ++ ID_String resourceID ++ patchSuffix)%string
  /\ (exists exs,
        history (snd (annotateWithResourceID rng logger kubeConfig rel resourceID s))
        = history s2 ++ exs
        /\ length exs
           = length (omap (patchRequest restMap rel (annotationPatch resourceID)) objs)
        /\ Forall (fun ex : Request * option Err =>
                     exists gvr ns name,
                       fst ex = ReqPatch gvr ns name MergePatchType
                                  (annotationPatch resourceID)) exs)
  /\ (plainText (ID_String resourceID) = true ->
      Json.Valid (annotationPatch resourceID) = true)
  /\ (plainText (ID_String resourceID) = true ->
      asciiText (ID_String resourceID) = true ->
      Json.Unmarshal (annotationPatch resourceID)
      = Some (antecedentPatch resourceID))
  /\ Json.Valid (annotationPatch (mkResourceID dq)) = false.
Proof.
  intros Hprep. split; [apply annotationPatch_concat|]. split; [|split; [|split]].
  - rewrite (claim_prepared _ _ _ _ _ _ _ _ _ _ Hprep).
    destruct (claimLoop_trace logger client restMap rel (annotationPatch resourceID)
                objs s2) as (w' & answers & Heq & Hlen).
    rewrite Heq. eexists. split; [reflexivity|]. split.
    + rewrite length_zip_with. lia.
    + apply patchRequest_body.
  - intros Hplain. unfold Json.Valid. by rewrite (annotationPatch_read _ Hplain).
  - intros Hplain Hascii. by apply annotationPatch_plain.
  - reflexivity.
Qed.
End PatchDocumentClaims.

(** C10 as stated fails: well-formedness does not need an identifier free of
    special characters.  Two backslashes are not plain text, and the document
    is well-formed JSON all the same. *)
Lemma patch_document_valid_with_backslashes :
  plainText (Fixture.bs ++ Fixture.bs)%string = false
  /\ Json.Valid (annotationPatch (mkResourceID (Fixture.bs ++ Fixture.bs)%string)) = true.
Proof. split; reflexivity. Qed.

(** * The theorems at work on the fixture *)

Section Witnesses.
Import Apiserver Fixture.

Lemma prepared_fixture w :
  faults w = [] -> apiResources w = resources ->
  prepared byPosition NopLogger config release (start w) tt resources descriptors
           (discovered w).
Proof.
  intros Hf Hr. split; [reflexivity|]. exists (discovered w). split.
  - unfold discovered, buildDiscoveryRestMapper, bind, sendDiscovery.
    cbn [NewDiscoveryClientForConfig kube newForConfig usable config GetAPIGroupResources
         cluster start]. unfold discover. rewrite Hf, Hr. reflexivity.
  - unfold releaseManifestToUnstructured.
    pose proof (decomposeLoop_contribution (Err:=Err) (World:=World) NopLogger
                  (snd <$> byPosition (SplitManifests (Manifest release))) []
                  (discovered w)) as H1.
    pose proof (decomposeLoop_state (Err:=Err) (World:=World) NopLogger
                  (snd <$> byPosition (SplitManifests (Manifest release))) []
                  (discovered w)) as (_ & _ & H2).
    specialize (H2 eq_refl).
    destruct (decomposeLoop _ _ _ _) as [objs s2]. cbn [fst snd] in H1, H2.
    subst s2. f_equal. rewrite H1. unfold descriptors, releaseManifestToUnstructured.
    by rewrite decomposeLoop_contribution.
Qed.

Lemma goesOver_sound objs s :
  goesOver objs s = true ->
  passesOver tt resources release objs s (passed objs s).
Proof.
  unfold goesOver, passed. intros H. apply passes_sound.
  by destruct (passes _ _ _ _ _).
Qed.

Lemma fetchedWell_sound r :
  fetchedWell r = true -> r = ((Some (fetched r), None), snd r).
Proof.
  unfold fetchedWell, fetched. by destruct r as [[[u|] [e|]] s].
Qed.

Lemma descriptors_fixture :
  descriptors
  = [descriptor "ConfigMap" "" "a"; descriptor "Gadget" "" "g"]
      ++ descriptor "Secret" "other" "b" :: [descriptor "ConfigMap" "" "c"].
Proof. reflexivity. Qed.

(** C1 on the fixture: the secret, third descriptor, is annotated by [owner];
    the config map after it, annotated by [stranger], is never asked for. *)
Lemma verify_first_annotation_decides_witness :
  fst (annotatedWithResourceID byPosition config release owner
         (start (world claimed [])))
  = Some (true, ID_String owner, None).
Proof.
  pose (s3 := passed [descriptor "ConfigMap" "" "a"; descriptor "Gadget" "" "g"]
                     (discovered (world claimed []))).
  pose (r := fetchWithRetry tt secretMapping
               (defaultNamespace release (descriptor "Secret" "other" "b")) s3).
  refine (eq_trans (f_equal fst (proj1
            (verify_first_annotation_decides byPosition config release owner
               (start (world claimed [])) tt resources
               [descriptor "ConfigMap" "" "a"; descriptor "Gadget" "" "g"]
               (descriptor "Secret" "other" "b") [descriptor "ConfigMap" "" "c"]
               (discovered (world claimed [])) s3 secretMapping
               (fetched r) (snd r) (ID_String owner) _ _ _ _ _))) eq_refl).
  - rewrite <- descriptors_fixture. by apply prepared_fixture.
  - apply goesOver_sound. reflexivity.
  - reflexivity.
  - apply (fetchedWell_sound r). reflexivity.
  - reflexivity.
Defined.

(** C2 on the fixture: nothing is annotated. *)
Lemma verify_unclaimed_witness :
  exists exs,
    annotatedWithResourceID byPosition config release owner
      (start (world unclaimed []))
    = (Some (true, "", None),
       mkState (world unclaimed []) ((ReqDiscovery, None) :: exs) [])
    /\ Forall (fun ex : Request * option Err =>
                 exists gvr ns name, fst ex = ReqGet gvr ns name) exs.
Proof.
  exact (verify_unclaimed (K:=kube) byPosition config release owner
           (start (world unclaimed [])) tt tt resources
           (world unclaimed []) (world unclaimed [])
           eq_refl eq_refl eq_refl
           (staysUnclaimed_sound (K:=kube) tt resources release
              (fst (releaseManifestToUnstructured byPosition (Manifest release)
                      NopLogger (start (world unclaimed []))))
              (world unclaimed []) (world unclaimed []) eq_refl)).
Defined.

(** C2 as stated fails: in a cluster without objects no resource of the
    release carries the annotation, and the call returns the error of the
    first fetch instead of [(true, "", nil)]. *)
Lemma missing_resource_is_not_unclaimed :
  objects (world ∅ []) = ∅
  /\ fst (annotatedWithResourceID byPosition config release owner
            (start (world ∅ [])))
     = Some (false, "", Some ErrNotFound).
Proof. split; reflexivity. Qed.


(** C8 on the fixture: the config map, which has no namespace of its own, is
    fetched in the namespace of the release, and the secret in its own. *)
Lemma namespace_defaulting_witness :
  ((exists groups visited,
       history (snd (annotatedWithResourceID byPosition config release owner
                       (start (world claimed []))))
       = history (discovered (world claimed [])) ++ concat groups
       /\ Forall2 (fetchedAs resources release) groups visited
       /\ visited `prefix_of` List.filter (resolvable resources) descriptors
       /\ (visited = [] -> List.filter (resolvable resources) descriptors = []))
   /\ (exists patches,
       history (snd (annotateWithResourceID byPosition NopLogger config release owner
                       (start (world claimed []))))
       = history (discovered (world claimed [])) ++ patches
       /\ Forall2 (patchedAs resources release (annotationPatch owner)) patches
                  (List.filter (resolvable resources) descriptors)))
  /\ history (snd (annotatedWithResourceID byPosition config release owner
                     (start (world claimed []))))
     = [(ReqDiscovery, None); (ReqGet configMaps "rel" "a", None);
        (ReqGet secrets "other" "b", None)].
Proof.
  exact (conj
           (namespace_defaulting byPosition NopLogger config release owner
              (start (world claimed [])) tt resources descriptors
              (discovered (world claimed [])) (discovered (world claimed []))
              (prepared_fixture (world claimed []) eq_refl eq_refl)
              (prepared_fixture (world claimed []) eq_refl eq_refl))
           eq_refl).
Defined.

Lemma get_objects client gvr ns name w :
  objects (snd (get client gvr ns name w)) = objects w.
Proof.
  unfold get. destruct (faults w); [|reflexivity].
  by destruct (objects w !! keyOf gvr ns name) as [[]|].
Qed.

(** C9 on the fixture: the objects of the reference server are what they
    were, though a fault was used up. *)
Lemma verify_read_only_witness :
  exists r w' exs,
    annotatedWithResourceID byPosition config release owner
      (start (world claimed []))
    = (Some r, mkState w' (history (start (world claimed [])) ++ exs)
                       (logged (start (world claimed []))))
    /\ objects w' = objects (cluster (start (world claimed [])))
    /\ Forall (fun ex => isRead (fst ex) = true) exs.
Proof.
  exact (verify_read_only objects byPosition config release owner
           (start (world claimed [])) get_objects discover_objects).
Defined.

(** C4 on the fixture, the map gone through as the finite map lists it. *)
Lemma decomposition_follows_enumeration_witness :
  let docs := snd <$> asStored (SplitManifests manifest) in
  docs ≡ₚ splitDocuments manifest
  /\ fst (releaseManifestToUnstructured asStored manifest NopLogger
            (start (world ∅ [])))
     = flat_map contribution docs.
Proof.
  intros docs.
  destruct (decomposition_follows_enumeration asStored manifest NopLogger
              (start (world ∅ [])) (reflexivity _)) as (H1 & H2 & _).
  exact (conj H1 (f_equal fst H2)).
Defined.

(** C4 as stated fails: the map can be gone through in an order that is not
    the order of the text, and the descriptors then come in that order. *)
Lemma decomposition_not_in_manifest_order :
  asStored (SplitManifests manifest) ≡ₚ map_to_list (SplitManifests manifest)
  /\ fst (releaseManifestToUnstructured asStored manifest NopLogger
            (start (world ∅ [])))
     <> flat_map descriptorsOf (splitDocuments manifest).
Proof.
  split; [reflexivity|]. intros H.
  apply (f_equal (fun l => GetName <$> l)) in H.
  vm_compute in H. discriminate H.
Qed.

(** A list one of whose items is no object contributes nothing, not even
    the items that are objects. *)
Lemma broken_list_contributes_nothing :
  contribution brokenList = []
  /\ descriptorsOf brokenList = [descriptor "Secret" "other" "b"].
Proof. split; reflexivity. Qed.

(** C6. The code does not do what the claim and the comment of
    [annotateWithResourceID] say, for an identifier with a double quote in
    it: the call returns nil, and the first config map of the release then
    has the antecedent annotation set to something else than the
    identifier's string form, and has another annotation besides, which it
    did not have. *)
Lemma injected_identifier_sets_another_annotation :
  let r := annotateWithResourceID byPosition NopLogger config release injecting
             (start (world unclaimed [])) in
  let after := objects (cluster (snd r)) !! keyOf configMaps "rel" "a" in
  fst r = None
  /\ (after ≫= getPath antecedentPath) = Some (JString "rel:helmrelease/x")
  /\ "rel:helmrelease/x" <> ID_String injecting
  /\ (after ≫= getPath ["metadata"; "annotations"; "evil"]) = Some (JString "y")
  /\ getPath ["metadata"; "annotations"; "evil"] (object "ConfigMap" "rel" "a" ∅)
     = None.
Proof.
  split; [reflexivity|]. split; [reflexivity|]. split; [discriminate|].
  split; reflexivity.
Qed.


(** C10 on the fixture. *)
Lemma claim_patch_document_witness :
  annotationPatch owner = (patchPrefix ++ ID_String owner ++ patchSuffix)%string
  /\ Json.Valid (annotationPatch owner) = true
  /\ Json.Unmarshal (annotationPatch owner) = Some (antecedentPatch owner).
Proof.
  destruct (claim_patch_document (K:=kube) byPosition NopLogger config release owner
              (start (world unclaimed [])) tt resources descriptors
              (discovered (world unclaimed []))
              (prepared_fixture (world unclaimed []) eq_refl eq_refl))
    as (Htext & _ & Hvalid & Hplain & _).
  exact (conj Htext (conj (Hvalid eq_refl) (Hplain eq_refl eq_refl))).
Defined.
End Witnesses.

(** * Further properties of the code *)

(** ** The retried fetch *)

Section RetryOutcome.
Context {Config Err World : Type}.
Context `{EC : ErrorClassifiers Err} `{K : Kube Config Err World}.

Abbreviation St := (State Err World).

Lemma backoff_outcome client mapping obj :
  forall steps (cap : option Unstructured * option Err) (s : St),
    match ExponentialBackoff_steps steps (fetchCondition client mapping obj) (cap, s) with
    | (WaitDone, ((res, err), _)) => is_Some res /\ err = None
    | (WaitConditionError e, ((res, err), _)) =>
        res = None /\ err = Some e /\ isTransient (Some e) = false
    | (ErrWaitTimeout, (cap', _)) =>
        match steps with
        | 0 => cap' = cap
        | S _ => exists e, cap' = (None, Some e) /\ isTransient (Some e) = true
        end
    end.
Proof.
  induction steps as [|steps IH]; intros cap s; [reflexivity|].
  cbn [ExponentialBackoff_steps]. unfold bind.
  destruct (client_Get client (Resource mapping) (GetNamespace obj) (GetName obj)
              (cluster s)) as [r w] eqn:Hget.
  destruct (isTransient (failure r)) eqn:Htr.
  - destruct r as [res|e]; [discriminate|].
    rewrite (fetchCondition_transient _ _ _ _ _ _ _ Hget Htr).
    specialize (IH (None, Some e)
                  (mkState w (history s ++ [(ReqGet (Resource mapping) (GetNamespace obj)
                                               (GetName obj), Some e)]) (logged s))).
    destruct (ExponentialBackoff_steps steps _ _) as [[|e'|] [[res' err'] s']];
      [exact IH|exact IH|].
    destruct steps; [|exact IH]. exists e. by split.
  - rewrite (fetchCondition_final _ _ _ _ _ _ _ Hget Htr).
    destruct r as [res|e]; cbn; [by eauto|done].
Qed.

(** X1. The value that [wait.ExponentialBackoff] returns is dropped (line 69),
    and nothing is lost with it: when the backoff ends well the variable [err]
    is nil and [res] holds an object; when it ends with the error of the
    condition, [err] is that error, which is not transient; when it gives
    up, [err] is a transient error, the one of the last attempt.  In the last
    two cases [res] is nil. *)
Theorem backoff_result_is_kept_in_err client mapping obj (s : St) :
  match ExponentialBackoff DefaultBackoff (fetchCondition client mapping obj)
          ((None, None), s) with
  | (wr, (cap, s')) =>
      fetchWithRetry client mapping obj s = (cap, s')
      /\ match wr with
         | WaitDone => is_Some (fst cap) /\ snd cap = None
         | WaitConditionError e =>
             cap = (None, Some e) /\ isTransient (Some e) = false
         | ErrWaitTimeout =>
             exists e, cap = (None, Some e) /\ isTransient (Some e) = true
         end
  end.
Proof.
  pose proof (backoff_outcome client mapping obj (Steps DefaultBackoff) (None, None) s)
    as H.
  unfold fetchWithRetry, ExponentialBackoff in *.
  destruct (ExponentialBackoff_steps _ _ _) as [wr [[res err] s']].
  split; [reflexivity|].
  destruct wr as [|e|]; cbn [fst snd]; [exact H| |exact H].
  destruct H as (-> & -> & H). by split.
Qed.
End RetryOutcome.

(** ** What [annotatedWithResourceID] returns and sends *)

Section VerifyOutcome.
Context {Config Err World : Type}.
Context `{EC : ErrorClassifiers Err} `{K : Kube Config Err World}
        `{MP : ManifestParser}.

Abbreviation St := (State Err World).

Lemma fetchWithRetry_settled client mapping obj (s : St) :
  settled (fst (fetchWithRetry client mapping obj s))
  /\ exists errs,
       history (snd (fetchWithRetry client mapping obj s))
       = history s ++ map (getExchange mapping obj) errs
       /\ length errs <= Steps DefaultBackoff.
Proof.
  destruct (fetchWithRetry_trace client mapping obj (fun _ => True) s
              (fun _ _ => I) I) as (cap & w' & errs & Heq & _ & Hlen & _ & Hset).
  rewrite Heq. split; [exact Hset|]. exists errs. split; [reflexivity|lia].
Qed.

Lemma verifyLoop_verdict client restMap rel resourceID :
  forall objs (s : St),
    match fst (verifyLoop client restMap rel resourceID objs s) with
    | Some (ok, v, Some _) => ok = false /\ v = ""
    | Some (ok, v, None) =>
        (ok = true -> v = ID_String resourceID \/ v = "")
        /\ (ok = false -> v <> ID_String resourceID)
    | None => False
    end.
Proof.
  induction objs as [|obj objs IH]; intros s; cbn [verifyLoop].
  - cbn. split; [by right|done].
  - destruct (RESTMapper_RESTMapping restMap _ _) as [mapping|err]; [|apply IH].
    unfold bind.
    pose proof (fetchWithRetry_settled client mapping (defaultNamespace rel obj) s)
      as [Hset _].
    destruct (fetchWithRetry client mapping (defaultNamespace rel obj) s)
      as [[[res|] [e|]] s1]; cbn [fst settled] in Hset; try done.
    destruct (GetAnnotations res !! AntecedentAnnotation) as [v|]; [|apply IH].
    cbn. split.
    + intros Heq. left. by apply String.eqb_eq.
    + intros Hne. by apply String.eqb_neq.
Qed.

(** X2. Whatever the cluster answers, what [annotatedWithResourceID] returns
    has one of three shapes.  With an error the verdict is false and the
    value empty.  Without an error, a true verdict comes with the
    identifier's own string form or with the empty value, and a false verdict
    comes with a value that is not the identifier's string form.  The
    call never dereferences nil. *)
Theorem verify_verdict_shape rng kubeConfig rel resourceID (s : St) :
  match fst (annotatedWithResourceID rng kubeConfig rel resourceID s) with
  | Some (ok, v, Some _) => ok = false /\ v = ""
  | Some (ok, v, None) =>
      (ok = true -> v = ID_String resourceID \/ v = "")
      /\ (ok = false -> v <> ID_String resourceID)
  | None => False
  end.
Proof.
  unfold annotatedWithResourceID.
  destruct (dynamic_NewForConfig kubeConfig) as [client|e]; [|by cbn].
  unfold bind.
  destruct (buildDiscoveryRestMapper kubeConfig s) as [[restMap|e] s1]; [|by cbn].
  destruct (releaseManifestToUnstructured rng (Manifest rel) NopLogger s1)
    as [objs s2].
  apply verifyLoop_verdict.
Qed.

Lemma verifyLoop_resolvable client restMap rel resourceID :
  forall objs (s : St),
    verifyLoop client restMap rel resourceID (List.filter (resolvable restMap) objs) s
    = verifyLoop client restMap rel resourceID objs s.
Proof.
  induction objs as [|obj objs IH]; intros s; [reflexivity|].
  cbn [List.filter]. unfold resolvable at 1, resolve.
  destruct (RESTMapper_RESTMapping restMap (GVK_GroupKind (GetGroupVersionKind obj))
              (gvk_Version (GetGroupVersionKind obj))) as [mapping|err] eqn:Hres.
  - cbn [verifyLoop]. rewrite Hres. unfold bind.
    destruct (fetchWithRetry client mapping (defaultNamespace rel obj) s)
      as [[[res|] [e|]] s1]; try reflexivity.
    destruct (GetAnnotations res !! AntecedentAnnotation); [reflexivity|apply IH].
  - cbn [verifyLoop]. rewrite Hres. apply IH.
Qed.

(** X3. Descriptors of a type the cluster does not know play no part in
    [annotatedWithResourceID]: the call returns what its loop returns over
    the descriptors that have a REST mapping alone, and ends in the same
    state. *)
Theorem verify_skips_unresolvable rng kubeConfig rel resourceID (s : St)
    client restMap objs s2 :
  prepared rng NopLogger kubeConfig rel s client restMap objs s2 ->
  annotatedWithResourceID rng kubeConfig rel resourceID s
  = verifyLoop client restMap rel resourceID
      (List.filter (resolvable restMap) objs) s2.
Proof.
  intros Hprep. rewrite verifyLoop_resolvable. by apply verify_prepared.
Qed.

Lemma verifyLoop_requests client restMap rel resourceID :
  forall objs (s : St),
    exists exs,
      history (snd (verifyLoop client restMap rel resourceID objs s))
      = history s ++ exs
      /\ length exs <= Steps DefaultBackoff * length objs.
Proof.
  induction objs as [|obj objs IH]; intros s; cbn [verifyLoop].
  - exists []. by rewrite app_nil_r.
  - assert (Hweak : forall s' : St,
               (exists exs, history s' = history s ++ exs
                            /\ length exs <= Steps DefaultBackoff * length objs) ->
               exists exs, history s' = history s ++ exs
                           /\ length exs <= Steps DefaultBackoff * length (obj :: objs)).
    { intros s' (exs & Hh & Hl). exists exs. split; [done|]. cbn [length]. lia. }
    destruct (RESTMapper_RESTMapping restMap _ _) as [mapping|err];
      [|apply Hweak, IH].
    unfold bind.
    pose proof (fetchWithRetry_settled client mapping (defaultNamespace rel obj) s)
      as (_ & errs & Hhist & Hlen).
    destruct (fetchWithRetry client mapping (defaultNamespace rel obj) s)
      as [cap s1]. cbn [snd] in Hhist.
    assert (Hhere : exists exs, history s1 = history s ++ exs
                      /\ length exs <= Steps DefaultBackoff * length (obj :: objs)).
    { eexists. split; [exact Hhist|]. rewrite length_map. cbn [length]. lia. }
    destruct cap as [[res|] [e|]]; try exact Hhere.
    destruct (GetAnnotations res !! AntecedentAnnotation); [exact Hhere|].
    destruct (IH s1) as (exs & Hh & Hl). rewrite Hh, Hhist, <- app_assoc.
    eexists. split; [reflexivity|]. rewrite length_app, length_map. cbn [length]. lia.
Qed.

Lemma buildDiscoveryRestMapper_requests kubeConfig (s : St) :
  exists exs,
    history (snd (buildDiscoveryRestMapper kubeConfig s)) = history s ++ exs
    /\ length exs <= 1.
Proof.
  unfold buildDiscoveryRestMapper.
  destruct (NewDiscoveryClientForConfig kubeConfig) as [dc|e].
  - unfold bind, sendDiscovery.
    destruct (GetAPIGroupResources dc (cluster s)) as [[g|e] w];
      eexists; (split; [reflexivity|cbn; lia]).
  - exists []. rewrite app_nil_r. split; [reflexivity|cbn; lia].
Qed.

Lemma descriptors_any_state rng manifest logger logger' (s s' : St) :
  fst (releaseManifestToUnstructured rng manifest logger s)
  = fst (releaseManifestToUnstructured rng manifest logger' s').
Proof.
  unfold releaseManifestToUnstructured. by rewrite !decomposeLoop_contribution.
Qed.

(** X4. One call of [annotatedWithResourceID] makes at most 1 + 4 n calls
    to the client libraries, n being the number of descriptors of the
    release: one of [GetAPIGroupResources] and, for each descriptor, as many
    of [Get] as the default backoff has steps (four). *)
Theorem verify_request_bound rng kubeConfig rel resourceID (s : St) :
  exists exs,
    history (snd (annotatedWithResourceID rng kubeConfig rel resourceID s))
    = history s ++ exs
    /\ length exs
       <= 1 + 4 * length (fst (releaseManifestToUnstructured rng (Manifest rel)
                                 NopLogger s)).
Proof.
  unfold annotatedWithResourceID.
  destruct (dynamic_NewForConfig kubeConfig) as [client|e].
  2:{ exists []. rewrite app_nil_r. split; [reflexivity|cbn; lia]. }
  unfold bind.
  destruct (buildDiscoveryRestMapper_requests kubeConfig s) as (exs1 & Hh1 & Hl1).
  destruct (buildDiscoveryRestMapper kubeConfig s) as [[restMap|e] s1];
    cbn [snd] in Hh1.
  2:{ exists exs1. split; [done|lia]. }
  rewrite (descriptors_any_state rng (Manifest rel) NopLogger NopLogger s s1).
  pose proof (decomposeLoop_state NopLogger
                (snd <$> rng (SplitManifests (Manifest rel))) [] s1) as (_ & _ & Hnop).
  specialize (Hnop eq_refl).
  unfold releaseManifestToUnstructured in *.
  destruct (decomposeLoop NopLogger _ [] s1) as [objs s2]. cbn [fst snd] in *.
  subst s2.
  destruct (verifyLoop_requests client restMap rel resourceID objs s1)
    as (exs & Hh & Hl).
  rewrite Hh, Hh1, <- app_assoc. eexists. split; [reflexivity|].
  rewrite length_app. change (Steps DefaultBackoff) with 4 in Hl. lia.
Qed.
End VerifyOutcome.

(** ** Decomposition *)

Section DecompositionEffects.
Context {Config Err World : Type}.
Context `{EC : ErrorClassifiers Err} `{K : Kube Config Err World}
        `{MP : ManifestParser}.

Abbreviation St := (State Err World).

(** X6. [releaseManifestToUnstructured] works on the text alone.  It sends
    nothing to the cluster; the only thing it logs is one record for each
    list document whose conversion by [ToList] fails, and with the no-op
    logger nothing; and the descriptors it returns depend neither on the
    logger nor on the state of the cluster. *)
Theorem decomposition_effects rng manifest logger (s : St) :
  let docs := snd <$> rng (SplitManifests manifest) in
  snd (releaseManifestToUnstructured rng manifest logger s)
  = mkState (cluster s) (history s)
      (logged s ++ logOf logger
         (replicate (length (List.filter failsToList docs)) LogToListError))
  /\ snd (releaseManifestToUnstructured rng manifest NopLogger s) = s
  /\ forall logger' (s' : St),
       fst (releaseManifestToUnstructured rng manifest logger' s')
       = fst (releaseManifestToUnstructured rng manifest logger s).
Proof.
  intros docs. unfold releaseManifestToUnstructured. fold docs.
  split; [apply decomposeLoop_log|]. split.
  - by apply decomposeLoop_state.
  - intros logger' s'. by rewrite !decomposeLoop_contribution.
Qed.

Lemma byPosition_enumerates manifest :
  byPosition (SplitManifests manifest) ≡ₚ map_to_list (SplitManifests manifest).
Proof.
  rewrite byPosition_SplitManifests. unfold SplitManifests.
  symmetry. apply map_to_list_to_map, (manifestKeys_NoDup _ 0).
Qed.

(** X7. The order in which the map of documents is gone through decides the
    order of the descriptors and nothing else: two enumerations of the map
    give the same descriptors, each as many times, whatever the loggers and
    the states; and so the same patch requests, each as many times, for
    [annotateWithResourceID] to send. *)
Theorem decomposition_same_descriptors rng1 rng2 manifest logger1 logger2
    (s1 s2 : St) :
  rng1 (SplitManifests manifest) ≡ₚ map_to_list (SplitManifests manifest) ->
  rng2 (SplitManifests manifest) ≡ₚ map_to_list (SplitManifests manifest) ->
  fst (releaseManifestToUnstructured rng1 manifest logger1 s1)
  ≡ₚ fst (releaseManifestToUnstructured rng2 manifest logger2 s2)
  /\ forall restMap rel body,
       omap (patchRequest restMap rel body)
            (fst (releaseManifestToUnstructured rng1 manifest logger1 s1))
       ≡ₚ omap (patchRequest restMap rel body)
               (fst (releaseManifestToUnstructured rng2 manifest logger2 s2)).
Proof.
  intros H1 H2.
  assert (Hperm : fst (releaseManifestToUnstructured rng1 manifest logger1 s1)
                  ≡ₚ fst (releaseManifestToUnstructured rng2 manifest logger2 s2)).
  { unfold releaseManifestToUnstructured.
    rewrite !decomposeLoop_contribution. cbn [app].
    apply Permutation_flat_map. by rewrite H1, H2. }
  split; [exact Hperm|]. intros restMap rel body. by rewrite Hperm.
Qed.
End DecompositionEffects.

(** ** Addresses and patch documents *)

Section Addressing.
Context {Config Err World : Type}.
Context `{EC : ErrorClassifiers Err} `{K : Kube Config Err World}
        `{MP : ManifestParser}.

Abbreviation St := (State Err World).

(** X8. [annotatedWithResourceID] looks only at objects that
    [annotateWithResourceID] patches, each call going through the documents
    in an order of its own: from the same state, every Get of the one is for
    a resource, namespace and name for which the other calls Patch. *)
Theorem verify_reads_what_claim_patches rngV rngC logger kubeConfig rel
    owner asker (s : St) client restMap objsV objsC s2 s2' :
  rngV (SplitManifests (Manifest rel)) ≡ₚ map_to_list (SplitManifests (Manifest rel)) ->
  rngC (SplitManifests (Manifest rel)) ≡ₚ map_to_list (SplitManifests (Manifest rel)) ->
  prepared rngV NopLogger kubeConfig rel s client restMap objsV s2 ->
  prepared rngC logger kubeConfig rel s client restMap objsC s2' ->
  exists gets patches,
    history (snd (annotatedWithResourceID rngV kubeConfig rel asker s))
    = history s2 ++ gets
    /\ history (snd (annotateWithResourceID rngC logger kubeConfig rel owner s))
       = history s2' ++ patches
    /\ forall gvr ns name err,
         (ReqGet gvr ns name, err) ∈ gets ->
         exists answer,
           (ReqPatch gvr ns name MergePatchType (annotationPatch owner), answer)
             ∈ patches.
Proof.
  intros HrngV HrngC Hverify Hclaim.
  assert (Hperm : objsV ≡ₚ objsC).
  { destruct Hverify as (_ & sv & _ & Hv). destruct Hclaim as (_ & sc & _ & Hc).
    apply (f_equal fst) in Hv, Hc. cbn [fst] in Hv, Hc. subst objsV objsC.
    unfold releaseManifestToUnstructured.
    rewrite !decomposeLoop_contribution. cbn [app].
    apply Permutation_flat_map. by rewrite HrngV, HrngC. }
  rewrite (verify_prepared _ _ _ _ _ _ _ _ _ Hverify).
  rewrite (claim_prepared _ _ _ _ _ _ _ _ _ _ Hclaim).
  destruct (verifyLoop_trace client restMap rel asker (fun _ => True)
              (fun _ _ _ _ _ => I) objsV s2 I) as (r & w' & gets & -> & _ & Hgets).
  destruct (claimLoop_trace logger client restMap rel (annotationPatch owner)
              objsC s2') as (w'' & answers & -> & Hlen).
  eexists gets, _. split; [reflexivity|]. split; [reflexivity|].
  intros gvr ns name err Hin.
  rewrite Forall_forall in Hgets.
  destruct (Hgets _ Hin) as (obj & mapping & Hobj & Hres & Hreq).
  cbn [fst] in Hreq. injection Hreq as -> -> ->.
  rewrite Hperm in Hobj.
  assert (Hpr : ReqPatch (Resource mapping) (GetNamespace (defaultNamespace rel obj))
                  (GetName obj) MergePatchType (annotationPatch owner)
                ∈ omap (patchRequest restMap rel (annotationPatch owner)) objsC).
  { apply list_elem_of_omap. exists obj. split; [done|].
    unfold patchRequest. by rewrite Hres, defaultNamespace_namespace. }
  apply list_elem_of_lookup in Hpr as [i Hi].
  destruct (lookup_lt_is_Some_2 answers i) as [answer Hanswer].
  { rewrite Hlen. by eapply lookup_lt_Some. }
  exists answer. apply list_elem_of_lookup. exists i.
  by rewrite lookup_zip_with, Hi, Hanswer.
Qed.
End Addressing.

Lemma string_length_app (a b : string) :
  String.length (a ++ b) = String.length a + String.length b.
Proof.
  induction a as [|c a IH]; [reflexivity|].
  rewrite string_app_cons. cbn [String.length plus]. by rewrite IH.
Qed.

Lemma string_app_inv_tail (a b s : string) :
  (a ++ s)%string = (b ++ s)%string -> a = b.
Proof.
  revert b. induction a as [|c a IH]; intros [|d b] H.
  - reflexivity.
  - apply (f_equal String.length) in H.
    rewrite string_app_nil_l, string_app_cons in H.
    cbn [String.length] in H. rewrite string_length_app in H. lia.
  - apply (f_equal String.length) in H.
    rewrite string_app_nil_l, string_app_cons in H.
    cbn [String.length] in H. rewrite string_length_app in H. lia.
  - rewrite !string_app_cons in H. injection H as -> H. f_equal. by apply IH.
Qed.

(** X9. The patch document tells the identifier: two identifiers give the
    same document exactly when they have the same string form. *)
Theorem annotationPatch_tells_identifier id1 id2 :
  annotationPatch id1 = annotationPatch id2 <-> ID_String id1 = ID_String id2.
Proof.
  rewrite !annotationPatch_concat. split; [|by intros ->].
  intros H. apply (inj (String.app patchPrefix)) in H.
  by apply string_app_inv_tail in H.
Qed.

(** ** Frames of a claim on the reference API server *)

Section ApiserverFrames.
Import Apiserver.

Abbreviation ASt := (State Err World).







End ApiserverFrames.

(** ** Claiming, then verifying *)

Section RoundTrip.
Import Apiserver.

Abbreviation ASt := (State Err World).










End RoundTrip.

(** ** What a verification reads *)

Section ReferenceReads.
Import Apiserver.

Abbreviation ASt := (State Err World).





End ReferenceReads.

(** ** The further properties at work on the fixture *)

Section FurtherWitnesses.
Import Apiserver Fixture.

(** The fixture prepared, whatever the order of the documents. *)
Lemma prepared_fixture_any rng w :
  faults w = [] -> apiResources w = resources ->
  prepared rng NopLogger config release (start w) tt resources
           (fst (releaseManifestToUnstructured rng manifest NopLogger
                   (start (world ∅ []))))
           (discovered w).
Proof.
  intros Hf Hr. split; [reflexivity|]. exists (discovered w). split.
  - unfold discovered, buildDiscoveryRestMapper, bind, sendDiscovery.
    cbn [NewDiscoveryClientForConfig kube newForConfig usable config GetAPIGroupResources
         cluster start]. unfold discover. rewrite Hf, Hr. reflexivity.
  - unfold releaseManifestToUnstructured.
    pose proof (decomposeLoop_state (Err:=Err) (World:=World) NopLogger
                  (snd <$> rng (SplitManifests (Manifest release))) []
                  (discovered w)) as (_ & _ & H2).
    specialize (H2 eq_refl).
    rewrite (surjective_pairing (decomposeLoop _ _ _ _)). f_equal; [|exact H2].
    by rewrite !decomposeLoop_contribution.
Qed.



(** X3 on the fixture: the gadget, of a kind the cluster does not know, is
    left out. *)
Lemma verify_skips_unresolvable_witness :
  annotatedWithResourceID byPosition config release owner (start (world claimed []))
  = verifyLoop tt resources release owner
      [descriptor "ConfigMap" "" "a"; descriptor "Secret" "other" "b";
       descriptor "ConfigMap" "" "c"]
      (discovered (world claimed [])).
Proof.
  exact (verify_skips_unresolvable byPosition config release owner
           (start (world claimed [])) tt resources descriptors
           (discovered (world claimed []))
           (prepared_fixture (world claimed []) eq_refl eq_refl)).
Defined.

(** X7 on the fixture: by position and as the finite map lists its entries. *)
Lemma decomposition_same_descriptors_witness :
  fst (releaseManifestToUnstructured byPosition manifest NopLogger
         (start (world ∅ [])))
  ≡ₚ fst (releaseManifestToUnstructured asStored manifest NopLogger
            (start (world ∅ []))).
Proof.
  exact (proj1 (decomposition_same_descriptors byPosition asStored manifest
                  NopLogger NopLogger (start (world ∅ [])) (start (world ∅ []))
                  (byPosition_enumerates manifest) (reflexivity _))).
Defined.

(** X8 on the fixture: the verification goes through the documents by
    position, the claim as the finite map lists them. *)
Lemma verify_reads_what_claim_patches_witness :
  exists gets patches,
    history (snd (annotatedWithResourceID byPosition config release stranger
                    (start (world claimed []))))
    = history (discovered (world claimed [])) ++ gets
    /\ history (snd (annotateWithResourceID asStored NopLogger config release owner
                       (start (world claimed []))))
       = history (discovered (world claimed [])) ++ patches
    /\ forall gvr ns name err,
         (ReqGet gvr ns name, err) ∈ gets ->
         exists answer,
           (ReqPatch gvr ns name MergePatchType (annotationPatch owner), answer)
             ∈ patches.
Proof.
  exact (verify_reads_what_claim_patches byPosition asStored NopLogger config
           release owner stranger (start (world claimed [])) tt resources
           descriptors
           (fst (releaseManifestToUnstructured asStored manifest NopLogger
                   (start (world ∅ []))))
           (discovered (world claimed [])) (discovered (world claimed []))
           (byPosition_enumerates manifest) (reflexivity _)
           (prepared_fixture (world claimed []) eq_refl eq_refl)
           (prepared_fixture_any asStored (world claimed []) eq_refl eq_refl)).
Defined.






End FurtherWitnesses.
